(** * Earthquake observatory: the data pipeline of [streamlit_app.py]

    A shallow embedding of the script's data path: the normalising loop of
    [load_data], the time-zone enrichment, the country heuristic (a regular
    expression search), the sidebar filter, the two pandas aggregations, the
    chart's by-country count and the time-to-live cache put around
    [load_data]; then the same loop on the parsed JSON of the response, with
    the subscripts as Python evaluates them, and the options the sidebar
    offers.

    Python values are modelled as follows.
    - [str] is a sequence of Unicode code points ([pystr], a list of [N]);
      [py "..."] writes an ASCII literal.
    - a value of the parsed response is a [pyval]: [None], a [bool], an
      [int], a [float] (binary64), a [str], a [list] or a [dict] with [str]
      keys.
    - a pandas [Timestamp] is its integer count of nanoseconds since the
      epoch; a time-zone aware one keeps the same count (pandas stores UTC).
    - an exception is a value of [exn], carried by [result].

    What belongs to a library and not to the script is a parameter: the
    zone of the tz database, the type pandas infers for a column of a
    frame, and the anchor pandas derives for the grid of line 112. *)

From Stdlib Require Import ZArith NArith List Ascii String Sorted Lia.
From Stdlib Require Import Floats.PrimFloat.
From Stdlib Require Uint63.
From stdpp Require Import base list strings.

Open Scope Z_scope.

(** ** Exceptions and the error monad *)

Inductive exn :=
| KeyError (key : string)
| TypeError
| AttributeError
| OutOfBoundsDatetime.

Inductive result (A : Type) :=
| OK (a : A)
| Raise (e : exn).
Arguments OK {A} a.
Arguments Raise {A} e.

Definition bind {A B} (m : result A) (k : A -> result B) : result B :=
  match m with
  | OK a => k a
  | Raise e => Raise e
  end.

Notation "x <- m ;;; k" := (bind m (fun x => k))
  (at level 100, m at next level, right associativity).

(** [Series.apply f]: [f] on every element from the first on; the first
    exception stops the traversal. *)
Fixpoint apply {A B} (f : A -> result B) (l : list A) : result (list B) :=
  match l with
  | [] => OK []
  | a :: l' => b <- f a ;;; bs <- apply f l' ;;; OK (b :: bs)
  end.

(** ** Python values *)

Definition pystr := list N.

Definition py (s : string) : pystr :=
  map N_of_ascii (list_ascii_of_string s).

(** A value [r.json()] can return. A dict is given by its items; the keys of
    a parsed object are strings. *)
#[local] Unset Elimination Schemes.
Inductive pyval :=
| PyNone
| PyBool (b : bool)
| PyInt (z : Z)
| PyFloat (f : float)
| PyStr (s : pystr)
| PyList (elements : list pyval)
| PyDict (items : list (pystr * pyval)).
#[local] Set Elimination Schemes.

(** [v is None] *)
Definition is_None (v : pyval) : bool :=
  match v with
  | PyNone => true
  | _ => false
  end.

Definition pystr_eqb (a b : pystr) : bool :=
  bool_decide (a = b).

(** ** The regular expression of the country heuristic

    The pattern of line 43 reads: a comma, then [\s*], then group 1 around
    [.*], then [$].

    The matcher is a backtracking one, as Python's [re]: a greedy star takes
    the longest run first and gives characters back one at a time while the
    rest of the pattern fails, and [re.search] tries the start positions from
    the left. *)

Definition COMMA : N := 44%N.
Definition LF : N := 10%N.

(** [\s] on a [str] pattern: the code points for which [str.isspace] holds. *)
Definition is_space (c : N) : bool :=
  ((9 <=? c) && (c <=? 13) || (28 <=? c) && (c <=? 32)
   || (c =? 133) || (c =? 160) || (c =? 5760)
   || (8192 <=? c) && (c <=? 8202)
   || (c =? 8232) || (c =? 8233) || (c =? 8239) || (c =? 8287)
   || (c =? 12288))%N.

(** [.] without [re.DOTALL]: anything but a line feed. *)
Definition is_dot (c : N) : bool :=
  negb (c =? LF)%N.

(** [$] without [re.MULTILINE]: at the end of the string, or just before a
    line feed that ends the string. *)
Definition at_dollar (s : pystr) : bool :=
  match s with
  | [] => true
  | [c] => (c =? LF)%N
  | _ => false
  end.

(** The atoms the pattern is made of: a literal character, the greedy
    whitespace run [\s*], the capturing group around [.*] (group 1) and
    the anchor [$]. *)
Inductive atom :=
| Lit (c : N)
| SpaceStar
| GroupDotStar
| Dollar.

(** The pattern of line 43. *)
Definition country_pattern : list atom :=
  [Lit COMMA; SpaceStar; GroupDotStar; Dollar].

(** A greedy star over the class [p]: [k] receives the text taken and the
    text left, first for the longest run, then for each shorter one. *)
Fixpoint greedy {R} (p : N -> bool) (s : pystr)
    (k : pystr -> pystr -> option R) : option R :=
  match s with
  | c :: s' =>
      if p c then
        match greedy p s' (fun taken rest => k (c :: taken) rest) with
        | Some r => Some r
        | None => k [] s
        end
      else k [] s
  | [] => k [] s
  end.

(** Match [pat] at the head of [s]; [grp] is the text of group 1 so far. The
    result is the text of group 1. *)
Fixpoint match_here (pat : list atom) (s : pystr) (grp : pystr)
    : option pystr :=
  match pat with
  | [] => Some grp
  | Lit c :: pat' =>
      match s with
      | x :: s' => if (x =? c)%N then match_here pat' s' grp else None
      | [] => None
      end
  | SpaceStar :: pat' =>
      greedy is_space s (fun _ rest => match_here pat' rest grp)
  | GroupDotStar :: pat' =>
      greedy is_dot s (fun taken rest => match_here pat' rest taken)
  | Dollar :: pat' =>
      if at_dollar s then match_here pat' s grp else None
  end.

(** [re.search(pat, s)], reduced to what [.group(1)] needs: [None] when no
    position matches. *)
Fixpoint re_search (pat : list atom) (s : pystr) : option pystr :=
  match match_here pat s [] with
  | Some g => Some g
  | None =>
      match s with
      | [] => None
      | _ :: s' => re_search pat s'
      end
  end.

(** The membership test of a comma in a [str] [x]. *)
Definition has_comma (x : pystr) : bool :=
  existsb (fun c => (c =? COMMA)%N) x.

(** [v == ","] *)
Definition is_comma_str (v : pyval) : bool :=
  match v with
  | PyStr s => pystr_eqb s [COMMA]
  | _ => false
  end.

(** The test [in] of a comma in [x]: a substring of a [str], an element of a
    [list], a key of a [dict]; [TypeError] on a value that is not a
    container. *)
Definition contains_comma (x : pyval) : result bool :=
  match x with
  | PyStr s => OK (has_comma s)
  | PyList elements => OK (existsb is_comma_str elements)
  | PyDict items => OK (existsb (fun kv => pystr_eqb (fst kv) [COMMA]) items)
  | _ => Raise TypeError
  end.

(** [re.search(pattern, x).group(1)]: [re.search] raises [TypeError] on a
    value that is not a [str], and [.group] on the [None] of a failed search
    raises [AttributeError]. *)
Definition search_group (x : pyval) : result pystr :=
  match x with
  | PyStr s =>
      match re_search country_pattern s with
      | Some g => OK g
      | None => Raise AttributeError
      end
  | _ => Raise TypeError
  end.

(** The lambda of line 43: when the test [in] finds a comma in [x], group 1
    of [re.search] with the pattern above, and the text [Unknown]
    otherwise. *)
Definition country_of (x : pyval) : result pystr :=
  found <- contains_comma x ;;;
  if found : bool then search_group x else OK (py "Unknown").

(** ** Timestamps, calendar and time zones *)

Definition NS_PER_MS : Z := 1000000.
Definition NS_PER_HOUR : Z := 3600000000000.
Definition NS_PER_DAY : Z := 86400000000000.

(** A zone of the tz database as pandas reads it: the offset (in
    nanoseconds) before the first transition, and the transitions in
    increasing order, each an instant (UTC nanoseconds) with the offset in
    force from it on. *)
Record tzinfo := {
  tz_initial : Z;
  tz_transitions : list (Z * Z)
}.

Definition UTC : tzinfo :=
  {| tz_initial := 0; tz_transitions := [] |}.

(** The offset in force at the UTC instant [t]: that of the last transition
    not after [t]. *)
Definition utcoffset (z : tzinfo) (t : Z) : Z :=
  fold_left (fun d tr => if fst tr <=? t then snd tr else d)
            (tz_transitions z) (tz_initial z).

Record Timestamp := {
  value : Z;              (* nanoseconds since 1970-01-01T00:00:00Z *)
  tz : option tzinfo      (* None: a naive timestamp *)
}.

(** pandas keeps the count of nanoseconds in 64 bits, and the least 64-bit
    integer stands for [NaT]: a timestamp lies between [Timestamp.min] and
    [Timestamp.max]. *)
Definition INT64_MAX : Z := 9223372036854775807.

Definition in_bounds (ns : Z) : bool :=
  (- INT64_MAX <=? ns) && (ns <=? INT64_MAX).

(** The naive timestamp [ms] milliseconds after the epoch. *)
Definition timestamp_ms (ms : Z) : Timestamp :=
  {| value := ms * NS_PER_MS; tz := None |}.

(** [pd.to_datetime(ms, unit="ms")] on an [int] that fits 64 bits: the
    timestamp, or [OutOfBoundsDatetime] when its count of nanoseconds does
    not fit. pandas reads the least 64-bit integer as [NaT] and takes wider
    integers along another path; neither is modelled, and what is proved
    below from an out-of-bounds time is stated for times that satisfy
    [in_bounds] themselves. *)
Definition to_datetime_ms (ms : Z) : result Timestamp :=
  if in_bounds (ms * NS_PER_MS) then OK (timestamp_ms ms)
  else Raise OutOfBoundsDatetime.

(** [.dt.tz_localize("UTC")] on a naive timestamp: the reading is already
    UTC. *)
Definition tz_localize_UTC (t : Timestamp) : Timestamp :=
  {| value := value t; tz := Some UTC |}.

(** [.dt.tz_convert(zone)]: the same instant, shown in [zone]. *)
Definition tz_convert (zone : tzinfo) (t : Timestamp) : Timestamp :=
  {| value := value t; tz := Some zone |}.

(** The wall-clock reading of a timestamp, in nanoseconds. *)
Definition wall (t : Timestamp) : Z :=
  match tz t with
  | Some z => value t + utcoffset z (value t)
  | None => value t
  end.

Record date := { year : Z; month : Z; day : Z }.

(** The proleptic Gregorian date of a day count from 1970-01-01. *)
Definition civil_from_days (n : Z) : date :=
  let z := n + 719468 in
  let era := z / 146097 in
  let doe := z - era * 146097 in
  let yoe := (doe - doe / 1460 + doe / 36524 - doe / 146096) / 365 in
  let doy := doe - (365 * yoe + yoe / 4 - yoe / 100) in
  let mp := (5 * doy + 2) / 153 in
  let d := doy - (153 * mp + 2) / 5 + 1 in
  let m := if mp <? 10 then mp + 3 else mp - 9 in
  {| year := yoe + era * 400 + (if m <=? 2 then 1 else 0);
     month := m; day := d |}.

(** [.dt.hour], [.dt.date] and [.dt.year] *)
Definition dt_hour (t : Timestamp) : Z := (wall t / NS_PER_HOUR) mod 24.
Definition dt_date (t : Timestamp) : date :=
  civil_from_days (wall t / NS_PER_DAY).
Definition dt_year (t : Timestamp) : Z := year (dt_date t).

(** ** The feed and the table *)

(** One element of the feed's [features]: [properties] with [place], [mag]
    and [time] (epoch milliseconds), and [geometry.coordinates], a triple
    longitude, latitude, depth. *)
Record feature := {
  place : pyval;
  mag : pyval;
  time : Z;
  coordinates_0 : pyval;
  coordinates_1 : pyval;
  coordinates_2 : pyval
}.

(** One dict appended to [records]. *)
Record record := {
  Place : pyval;
  Magnitude : pyval;
  Time_UTC : Timestamp;
  Depth_km : pyval;
  Longitude : pyval;
  Latitude : pyval
}.

(** One row of the table [load_data] returns. *)
Record row := {
  base :> record;
  Time_Central : Timestamp;
  Hour : Z;
  Date : date;
  Year : Z;
  Country : pystr
}.

(** The [for] loop of lines 24-36: [records] is the list built so far. An
    exception of [pd.to_datetime] ends the loop. *)
Fixpoint load_records (data : list feature) (records : list record)
    : result (list record) :=
  match data with
  | [] => OK records
  | d :: data' =>
      if is_None (mag d) || is_None (coordinates_2 d)
      then load_records data' records
      else
        t <- to_datetime_ms (time d) ;;;
        load_records data'
          (records ++ [ {| Place := place d;
                           Magnitude := mag d;
                           Time_UTC := t;
                           Depth_km := coordinates_2 d;
                           Longitude := coordinates_0 d;
                           Latitude := coordinates_1 d |} ])
  end.

(** A frame: the names of its columns and its rows. *)
Record DataFrame := {
  columns : list string;
  rows : list record
}.

Definition record_keys : list string :=
  ["Place"; "Magnitude"; "Time_UTC"; "Depth (km)"; "Longitude";
   "Latitude"]%string.

(** The values a column's type can decide on: [None], a [bool], an [int] or
    a [float]. *)
Inductive scalar :=
| SNone
| SBool (b : bool)
| SInt (z : Z)
| SFloat (f : float).

Definition of_scalar (x : scalar) : pyval :=
  match x with
  | SNone => PyNone
  | SBool b => PyBool b
  | SInt z => PyInt z
  | SFloat f => PyFloat f
  end.

Definition to_scalar (v : pyval) : option scalar :=
  match v with
  | PyNone => Some SNone
  | PyBool b => Some (SBool b)
  | PyInt z => Some (SInt z)
  | PyFloat f => Some (SFloat f)
  | _ => None
  end.

Section Frame.

(** [pd.DataFrame] gives each column a type it infers from the column's
    values, and stores the values in that type: in a column of [int] and
    [float] values [10] is kept as [10.0], and a [None] among numbers as
    [NaN]. The inference is pandas' own and not part of the script:
    [astype col x] is the value stored for the scalar [x] of a column whose
    values are [col]. A [str], a [list] and a [dict] are stored as they
    are. *)
Variable astype : list pyval -> scalar -> scalar.

(** The stored value of the cell [v] of the column [col]. *)
Definition cell (col : list pyval) (v : pyval) : pyval :=
  match to_scalar v with
  | Some x => of_scalar (astype col x)
  | None => v
  end.

(** The row of the dict [r] in the frame made of the dicts [records]; the
    timestamp of [Time_UTC] is kept. *)
Definition stored (records : list record) (r : record) : record :=
  {| Place := cell (map Place records) (Place r);
     Magnitude := cell (map Magnitude records) (Magnitude r);
     Time_UTC := Time_UTC r;
     Depth_km := cell (map Depth_km records) (Depth_km r);
     Longitude := cell (map Longitude records) (Longitude r);
     Latitude := cell (map Latitude records) (Latitude r) |}.

(** [pd.DataFrame(records)] on a list of dicts: the columns are the keys of
    the dicts, so an empty list gives a frame without columns. *)
Definition pd_DataFrame (records : list record) : DataFrame :=
  {| columns := match records with [] => [] | _ :: _ => record_keys end;
     rows := map (stored records) records |}.

End Frame.

(** [df[name]]: the column, or [KeyError] when the frame has no such
    column. *)
Definition getitem {A} (df : DataFrame) (name : string) (field : record -> A)
    : result (list A) :=
  if bool_decide (name ∈ columns df)
  then OK (map field (rows df))
  else Raise (KeyError name).

(** The columns put side by side again, a row per position. *)
Fixpoint assemble (rs : list record) (tc : list Timestamp) (hs : list Z)
    (ds : list date) (ys : list Z) (cs : list pystr) : list row :=
  match rs, tc, hs, ds, ys, cs with
  | r :: rs', t :: tc', h :: hs', d :: ds', y :: ys', c :: cs' =>
      {| base := r; Time_Central := t; Hour := h; Date := d; Year := y;
         Country := c |} :: assemble rs' tc' hs' ds' ys' cs'
  | _, _, _, _, _, _ => []
  end.

Section Load.

(** The zone the tz database has under the name America/Chicago. The
    database is not part of the script. *)
Variable America_Chicago : tzinfo.

(** The type inference of [pd.DataFrame], see [cell]. *)
Variable astype : list pyval -> scalar -> scalar.

(** [load_data] from line 24 on, given the [features] of the response. *)
Definition load_data (data : list feature) : result (list row) :=
  records <- load_records data [] ;;;
  let df := pd_DataFrame astype records in
  time_utc <- getitem df "Time_UTC" Time_UTC ;;;
  let time_central :=
    map (tz_convert America_Chicago) (map tz_localize_UTC time_utc) in
  let hour := map dt_hour time_central in
  let date := map dt_date time_central in
  let year := map dt_year time_central in
  places <- getitem df "Place" Place ;;;
  country <- apply country_of places ;;;
  OK (assemble (rows df) time_central hour date year country).

End Load.

(** ** The sidebar filter *)

(** [df[mask]] with a boolean mask as long as the frame. *)
Fixpoint boolean_index {A} (df : list A) (mask : list bool) : list A :=
  match df, mask with
  | r :: df', b :: mask' =>
      if b then r :: boolean_index df' mask' else boolean_index df' mask'
  | _, _ => []
  end.

(** [Series.isin(values)] on one element. *)
Definition isin (c : pystr) (values : list pystr) : bool :=
  existsb (pystr_eqb c) values.

(** The truth value of a list: non-empty. *)
Definition truthy {A} (l : list A) : bool :=
  match l with
  | [] => false
  | _ :: _ => true
  end.

(** Lines 53-55. *)
Definition filtered_df (df : list row) (year_filter : Z)
    (country_filter : list pystr) : list row :=
  let filtered := boolean_index df (map (fun r => Year r =? year_filter) df) in
  if truthy country_filter
  then boolean_index filtered
         (map (fun r => isin (Country r) country_filter) filtered)
  else filtered.

(** ** The aggregations *)

(** *** Line 91: [groupby(["Date", "Hour"]).size().reset_index(name="Count")] *)

Definition lexico (c1 c2 : comparison) : comparison :=
  match c1 with
  | Eq => c2
  | _ => c1
  end.

(** The order of [datetime.date] values. *)
Definition date_compare (a b : date) : comparison :=
  lexico (year a ?= year b) (lexico (month a ?= month b) (day a ?= day b)).

(** The order of the group keys, pairs of a date and an hour. *)
Definition key_compare (a b : date * Z) : comparison :=
  lexico (date_compare (fst a) (fst b)) (snd a ?= snd b).

(** One more row with key [k]: its group grows by one, or a group of one
    opens at its place in the key order. *)
Fixpoint bump (k : date * Z) (sizes : list (date * Z * nat))
    : list (date * Z * nat) :=
  match sizes with
  | [] => [(k, 1%nat)]
  | (k', n) :: sizes' =>
      match key_compare k k' with
      | Lt => (k, 1%nat) :: sizes
      | Eq => (k', S n) :: sizes'
      | Gt => (k', n) :: bump k sizes'
      end
  end.

(** [groupby(keys).size()]: the groups in key order, each with its size. *)
Definition groupby_size (keys : list (date * Z)) : list (date * Z * nat) :=
  fold_left (fun sizes k => bump k sizes) keys [].

(** The rows (Date, Hour, Count) of [heat_df]. *)
Definition heat_df (filtered : list row) : list (date * Z * nat) :=
  groupby_size (map (fun r => (Date r, Hour r)) filtered).

(** *** Lines 77-86: the bar chart counts per country, largest first *)

Fixpoint tally (c : pystr) (counts : list (pystr * nat))
    : list (pystr * nat) :=
  match counts with
  | [] => [(c, 1%nat)]
  | (c', n) :: counts' =>
      if pystr_eqb c c' then (c', S n) :: counts'
      else (c', n) :: tally c counts'
  end.

Fixpoint insert_desc (x : pystr * nat) (l : list (pystr * nat))
    : list (pystr * nat) :=
  match l with
  | [] => [x]
  | y :: l' =>
      if (snd y <=? snd x)%nat then x :: l else y :: insert_desc x l'
  end.

Definition country_counts (filtered : list row) : list (pystr * nat) :=
  fold_right insert_desc []
    (fold_left (fun counts r => tally (Country r) counts) filtered []).

(** *** Line 112: [set_index("Time_Central").resample("1H").size()]

    pandas lays a grid of one-hour bins, closed on the left and labelled by
    their left edge, over the index. The grid is anchored at an instant
    [origin] that pandas derives from the index: with the default
    [origin="start_day"], midnight of the earliest timestamp's day in the
    zone of the index. That computation needs the tz database and is left
    out: [origin] is an argument here, and what is proved below holds for
    every value of it. The first edge is the last grid point not after the
    earliest timestamp, the last edge the first grid point after the latest
    one. Bins are counted whether or not a timestamp falls in them. *)

Definition adjust_dates_anchored (first last origin : Z) : Z * Z :=
  let foffset := (first - origin) mod NS_PER_HOUR in
  let loffset := (last - origin) mod NS_PER_HOUR in
  let fresult := if 0 <? foffset then first - foffset else first in
  let lresult :=
    if 0 <? loffset then last + (NS_PER_HOUR - loffset)
    else last + NS_PER_HOUR in
  (fresult, lresult).

(** The left edges [fresult], [fresult + 1H], ... below [lresult]. *)
Definition bin_labels (fresult lresult : Z) : list Z :=
  map (fun i => fresult + Z.of_nat i * NS_PER_HOUR)
      (seq 0 (Z.to_nat ((lresult - fresult) / NS_PER_HOUR))).

Definition in_bin (b t : Z) : bool :=
  (b <=? t) && (t <? b + NS_PER_HOUR).

(** The edges of the grid over the index [t :: ts]. *)
Definition range_edges (origin : Z) (t : Z) (ts : list Z) : Z * Z :=
  adjust_dates_anchored (fold_left Z.min ts t) (fold_left Z.max ts t) origin.

(** The bins between the two edges, each with the number of timestamps of
    the index in it. *)
Definition time_bins (fresult lresult : Z) (index : list Z)
    : list (Z * nat) :=
  map (fun b => (b, length (List.filter (in_bin b) index)))
      (bin_labels fresult lresult).

(** The two edges are made timestamps before the bins are laid out, which
    raises [OutOfBoundsDatetime] for an edge out of bounds: the last edge
    lies up to an hour after the latest timestamp. An empty index gives an
    empty series. *)
Definition resample_1H_size (origin : Z) (index : list Z)
    : result (list (Z * nat)) :=
  match index with
  | [] => OK []
  | t :: ts =>
      let '(fresult, lresult) := range_edges origin t ts in
      if in_bounds fresult && in_bounds lresult
      then OK (time_bins fresult lresult index)
      else Raise OutOfBoundsDatetime
  end.

(** The rows (Time_Central, Count) of [df_ts]; a label is given as its
    instant. *)
Definition df_ts (origin : Z) (filtered : list row)
    : result (list (Z * nat)) :=
  resample_1H_size origin (map (fun r => value (Time_Central r)) filtered).

(** ** Objects and references

    The aggregations as the statements of the script: pandas and altair
    objects live in a store, a name holds a reference, and every method of
    the chains of lines 77-86, 91 and 112 returns a new object. A [GroupBy],
    a [Resampler] and a [Chart] keep a reference to the frame they were made
    from, and read it when they are evaluated. *)

Definition ref := nat.

Inductive object :=
| Frame (t : list row)
| GroupBy (frame : ref)
| Resampler (frame : ref)
| Chart (data : ref)
| HeatCounts (c : list (date * Z * nat))
| HourCounts (c : list (Z * nat))
| CountryCounts (c : list (pystr * nat)).

Definition store := list object.

Definition M (A : Type) : Type := store -> result (A * store).

Definition ret {A} (a : A) : M A := fun h => OK (a, h).

Definition raise {A} (e : exn) : M A := fun _ => Raise e.

Definition bindM {A B} (m : M A) (k : A -> M B) : M B :=
  fun h =>
    match m h with
    | OK (a, h') => k a h'
    | Raise e => Raise e
    end.

Notation "x <~ m ;;; k" := (bindM m (fun x => k))
  (at level 100, m at next level, right associativity).

(** A new object, at the next free reference. *)
Definition new (o : object) : M ref :=
  fun h => OK (length h, h ++ [o]).

(** The object a reference is bound to. A reference that [new] returned is
    bound in every later store. *)
Definition get (r : ref) : M object :=
  fun h =>
    match h !! r with
    | Some o => OK (o, h)
    | None => Raise (KeyError "ref")
    end.

Definition get_frame (r : ref) : M (list row) :=
  o <~ get r ;;;
  match o with
  | Frame t => ret t
  | _ => raise AttributeError
  end.

(** [frame.groupby(["Date", "Hour"])] *)
Definition groupby (frame : ref) : M ref :=
  _ <~ get_frame frame ;;; new (GroupBy frame).

(** [frame.set_index("Time_Central")]: a new frame. *)
Definition set_index (frame : ref) : M ref :=
  t <~ get_frame frame ;;; new (Frame t).

(** [frame.resample("1H")] *)
Definition resample (frame : ref) : M ref :=
  _ <~ get_frame frame ;;; new (Resampler frame).

(** [.size()] of a [GroupBy] or of a [Resampler] *)
Definition size (origin : Z) (g : ref) : M ref :=
  o <~ get g ;;;
  match o with
  | GroupBy frame => t <~ get_frame frame ;;; new (HeatCounts (heat_df t))
  | Resampler frame =>
      t <~ get_frame frame ;;;
      match df_ts origin t with
      | OK c => new (HourCounts c)
      | Raise e => raise e
      end
  | _ => raise AttributeError
  end.

(** [.reset_index(name="Count")] of the sizes *)
Definition reset_index (s : ref) : M ref :=
  o <~ get s ;;;
  match o with
  | HeatCounts c => new (HeatCounts c)
  | HourCounts c => new (HourCounts c)
  | _ => raise AttributeError
  end.

(** Line 91 *)
Definition heat_df_stmt (origin : Z) (filtered : ref) : M ref :=
  g <~ groupby filtered ;;;
  s <~ size origin g ;;;
  reset_index s.

(** Line 112 *)
Definition df_ts_stmt (origin : Z) (filtered : ref) : M ref :=
  i <~ set_index filtered ;;;
  r <~ resample i ;;;
  s <~ size origin r ;;;
  reset_index s.

(** Lines 77-87: the chart on the frame, and the counts it shows. *)
Definition country_chart_stmt (filtered : ref) : M ref :=
  _ <~ get_frame filtered ;;;
  c <~ new (Chart filtered) ;;;
  t <~ get_frame filtered ;;;
  new (CountryCounts (country_counts t)).

(** ** The cache of line 18: [st.cache_data(ttl=180)]

    Timer readings are in nanoseconds. An entry is written when the call
    has returned and is valid while the timer reads less than its expiry. *)

Definition TTL : Z := 180 * 1000000000.

Record entry := {
  expires : Z;
  cached : list row
}.

Record cache := {
  slot : option entry;
  fetches : nat        (* the number of GET requests sent so far *)
}.

(** One call of the decorated [load_data]. *)
Record access := {
  now : Z;                  (* the timer when the cache is looked up *)
  feed : list feature;      (* the features a GET would return *)
  stored_at : Z             (* the timer when a fresh table is written *)
}.

Section Cache.

Variable America_Chicago : tzinfo.
Variable astype : list pyval -> scalar -> scalar.

(** A miss: the GET is sent and [load_data] runs on the response; a table
    is stored, an exception is not. *)
Definition fetch (a : access) (c : cache) : result (list row) * cache :=
  match load_data America_Chicago astype (feed a) with
  | OK df =>
      (OK df, {| slot := Some {| expires := stored_at a + TTL; cached := df |};
                 fetches := S (fetches c) |})
  | Raise e =>
      (Raise e, {| slot := slot c; fetches := S (fetches c) |})
  end.

Definition cached_load_data (a : access) (c : cache)
    : result (list row) * cache :=
  match slot c with
  | Some e => if now a <? expires e then (OK (cached e), c) else fetch a c
  | None => fetch a c
  end.

(** A run of the script per access, the cache carried along. *)
Definition run (accesses : list access) (c : cache) : cache :=
  fold_left (fun c a => snd (cached_load_data a c)) accesses c.

End Cache.

(** ** The response as parsed JSON (lines 22-36) *)

(** What the reading of the response can raise: the exceptions of [exn],
    [IndexError], and the [KeyError] of an integer key. *)
Inductive raised :=
| Raised (e : exn)
| IndexError
| KeyError_int (key : nat).

Inductive outcome (A : Type) :=
| Done (a : A)
| Fail (e : raised).
Arguments Done {A} a.
Arguments Fail {A} e.

Definition bindO {A B} (m : outcome A) (k : A -> outcome B) : outcome B :=
  match m with
  | Done a => k a
  | Fail e => Fail e
  end.

Notation "x <-- m ;;; k" := (bindO m (fun x => k))
  (at level 100, m at next level, right associativity).

Fixpoint lookup_key (key : pystr) (items : list (pystr * pyval))
    : option pyval :=
  match items with
  | [] => None
  | (k, v) :: items' =>
      if pystr_eqb key k then Some v else lookup_key key items'
  end.

(** [v[key]] for a string literal [key]: the value of a dict, [KeyError]
    when the dict lacks the key, [TypeError] on anything else. *)
Definition getitem_str (v : pyval) (key : string) : outcome pyval :=
  match v with
  | PyDict items =>
      match lookup_key (py key) items with
      | Some x => Done x
      | None => Fail (Raised (KeyError key))
      end
  | _ => Fail (Raised TypeError)
  end.

(** [v[i]] for an index [i] that is not negative. *)
Definition getitem_int (v : pyval) (i : nat) : outcome pyval :=
  match v with
  | PyList elements =>
      match nth_error elements i with
      | Some x => Done x
      | None => Fail IndexError
      end
  | PyStr s =>
      match nth_error s i with
      | Some c => Done (PyStr [c])
      | None => Fail IndexError
      end
  | PyDict _ => Fail (KeyError_int i)
  | _ => Fail (Raised TypeError)
  end.

(** What [for d in v] goes through: the elements of a list, the keys of a
    dict, the characters of a string; other values are not iterable. *)
Definition iterate (v : pyval) : outcome (list pyval) :=
  match v with
  | PyList elements => Done elements
  | PyDict items => Done (map (fun kv => PyStr (fst kv)) items)
  | PyStr s => Done (map (fun c => PyStr [c]) s)
  | _ => Fail (Raised TypeError)
  end.

Section Response.

(** [pd.to_datetime(v, unit="ms")] and the type of what it returns. *)
Variable T : Type.
Variable to_datetime : pyval -> outcome T.

(** One dict appended to [records], its values as read. *)
Record jrecord := {
  jPlace : pyval;
  jMagnitude : pyval;
  jTime_UTC : T;
  jDepth_km : pyval;
  jLongitude : pyval;
  jLatitude : pyval
}.

(** The body of the loop, lines 26-36: [None] stands for [continue]. The
    test of line 28 reads [c[2]] only when the magnitude is not null. *)
Definition loop_body (d : pyval) : outcome (option jrecord) :=
  p <-- getitem_str d "properties" ;;;
  g <-- getitem_str d "geometry" ;;;
  c <-- getitem_str g "coordinates" ;;;
  m <-- getitem_str p "mag" ;;;
  skip <-- (if is_None m then Done true
            else c2 <-- getitem_int c 2 ;;; Done (is_None c2)) ;;;
  if skip : bool then Done None
  else
    v_place <-- getitem_str p "place" ;;;
    v_mag <-- getitem_str p "mag" ;;;
    v_time <-- getitem_str p "time" ;;;
    t <-- to_datetime v_time ;;;
    c2 <-- getitem_int c 2 ;;;
    c0 <-- getitem_int c 0 ;;;
    c1 <-- getitem_int c 1 ;;;
    Done (Some {| jPlace := v_place; jMagnitude := v_mag; jTime_UTC := t;
                  jDepth_km := c2; jLongitude := c0; jLatitude := c1 |}).

Fixpoint read_loop (data : list pyval) (records : list jrecord)
    : outcome (list jrecord) :=
  match data with
  | [] => Done records
  | d :: data' =>
      r <-- loop_body d ;;;
      match r with
      | None => read_loop data' records
      | Some rec => read_loop data' (records ++ [rec])
      end
  end.

(** Lines 22-36 on the parsed response. *)
Definition read_records (response : pyval) : outcome (list jrecord) :=
  data <-- getitem_str response "features" ;;;
  ds <-- iterate data ;;;
  read_loop ds [].

End Response.

Arguments jPlace {T} _.
Arguments jMagnitude {T} _.
Arguments jTime_UTC {T} _.
Arguments jDepth_km {T} _.
Arguments jLongitude {T} _.
Arguments jLatitude {T} _.

(** ** The options of the sidebar (lines 50-51) *)

(** [Series.unique()]: the values in the order of their first appearance. *)
Definition unique {A} `{EqDecision A} (l : list A) : list A :=
  fold_left (fun seen x => if bool_decide (x ∈ seen) then seen else seen ++ [x])
            l [].

(** [sorted(l)] for the order [leb], by insertion from the right end, which
    keeps elements that compare equal in their order. *)
Fixpoint insort {A} (leb : A -> A -> bool) (x : A) (l : list A) : list A :=
  match l with
  | [] => [x]
  | y :: l' => if leb x y then x :: l else y :: insort leb x l'
  end.

Definition sorted {A} (leb : A -> A -> bool) (l : list A) : list A :=
  fold_right (insort leb) [] l.

(** The order of [str]: by code points, a proper prefix first. *)
Fixpoint pystr_leb (a b : pystr) : bool :=
  match a, b with
  | [], _ => true
  | _ :: _, [] => false
  | x :: a', y :: b' =>
      if (x <? y)%N then true
      else if (y <? x)%N then false
      else pystr_leb a' b'
  end.

(** Line 50: the options of the year selectbox. *)
Definition year_options (df : list row) : list Z :=
  sorted (fun a b => b <=? a) (unique (map Year df)).

(** Line 51: the options of the country multiselect. *)
Definition country_options (df : list row) : list pystr :=
  sorted pystr_leb (unique (map Country df)).

(** ** Definitions used to state the properties *)

(** [str.lstrip()]: the text without its leading whitespace. *)
Fixpoint lstrip (s : pystr) : pystr :=
  match s with
  | c :: s' => if is_space c then lstrip s' else s
  | [] => []
  end.

(** The normaliser in the words of the specification: a feature is usable
    when neither its magnitude nor its depth is null, and a usable feature
    gives the record with its fields copied and its time read as epoch
    milliseconds. *)
Definition usable (d : feature) : bool :=
  negb (is_None (mag d)) && negb (is_None (coordinates_2 d)).

Definition record_of (d : feature) : record :=
  {| Place := place d;
     Magnitude := mag d;
     Time_UTC := timestamp_ms (time d);
     Depth_km := coordinates_2 d;
     Longitude := coordinates_0 d;
     Latitude := coordinates_1 d |}.

Definition normalizer_spec (data : list feature) : list record :=
  map record_of (List.filter usable data).

(** The time of a usable feature is a timestamp pandas can hold. *)
Definition timely (d : feature) : Prop :=
  usable d = true -> in_bounds (time d * NS_PER_MS) = true.

(** The time of a usable feature, in milliseconds, fits 64 bits. *)
Definition time_fits (d : feature) : Prop :=
  usable d = true -> in_bounds (time d) = true.

(** A value is a scalar when the type of its column can change how it is
    stored. *)
Definition is_scalar (v : pyval) : bool :=
  match to_scalar v with
  | Some _ => true
  | None => false
  end.

(** What the frame may store for the value [v]: a scalar for a scalar,
    and [v] itself otherwise. *)
Definition kept (v w : pyval) : Prop :=
  if is_scalar v then is_scalar w = true else w = v.

(** The row [r] holds the feature [d]: its time, and its other values as
    the frame keeps them. *)
Definition holds (r : row) (d : feature) : Prop :=
  Time_UTC r = timestamp_ms (time d) /\
  kept (place d) (Place r) /\
  kept (mag d) (Magnitude r) /\
  kept (coordinates_2 d) (Depth_km r) /\
  kept (coordinates_0 d) (Longitude r) /\
  kept (coordinates_1 d) (Latitude r).

(** A usable feature whose time is out of bounds. *)
Definition untimely (d : feature) : Prop :=
  usable d = true /\ in_bounds (time d * NS_PER_MS) = false.

(** Lines 39-43 read row by row. *)
Definition enrich (America_Chicago : tzinfo) (r : record) : result row :=
  let t := tz_convert America_Chicago (tz_localize_UTC (Time_UTC r)) in
  c <- country_of (Place r) ;;;
  OK {| base := r; Time_Central := t; Hour := dt_hour t; Date := dt_date t;
        Year := dt_year t; Country := c |}.

#[global] Instance date_eq_dec : EqDecision date.
Proof. solve_decision. Defined.

Definition key_lt (a b : date * Z * nat) : Prop :=
  key_compare (fst a) (fst b) = Lt.

(** The total of the sizes listed under the key [k]. *)
Fixpoint size_of (k : date * Z) (sizes : list (date * Z * nat)) : nat :=
  match sizes with
  | [] => 0
  | (k', n) :: sizes' => (if decide (k = k') then n else 0) + size_of k sizes'
  end.

(** The left edge of the [i]-th bin of a grid that starts at [start]. *)
Definition edge (start : Z) (i : nat) : Z :=
  start + Z.of_nat i * NS_PER_HOUR.

(** The first and the last edge of the grid over the timestamps of a table
    that is not empty. *)
Definition edges (origin : Z) (filtered : list row) : Z * Z :=
  match map (fun r => value (Time_Central r)) filtered with
  | [] => (origin, origin)
  | t :: ts => range_edges origin t ts
  end.

(** The number of bins of [labels] that hold the instant [t]. *)
Definition hits (labels : list Z) (t : Z) : nat :=
  sum_list_with (fun b => if in_bin b t then 1%nat else 0%nat) labels.

(** Running [stmt] on the frame at [filtered] twice, from the store [h],
    succeeds both times, both results are [v], and every object that was in
    [h] is still there unchanged after each run. *)
Definition repeatable (stmt : ref -> M ref) (h : store) (filtered : ref)
    (v : object) : Prop :=
  exists r1 h1 r2 h2,
    stmt filtered h = OK (r1, h1) /\
    stmt filtered h1 = OK (r2, h2) /\
    h2 !! r1 = Some v /\ h2 !! r2 = Some v /\
    forall r o, h !! r = Some o -> h1 !! r = Some o /\ h2 !! r = Some o.

Definition empty_cache : cache := {| slot := None; fetches := 0 |}.

(** Group 1 of the pattern's tail, a greedy [.*] group and then [$], on the
    text [r]: all of [r] when it has no line feed, [r] without its last
    character when the only line feed is that character, no match
    otherwise. *)
Fixpoint group_of (r : pystr) : option pystr :=
  match r with
  | [] => Some []
  | c :: r' =>
      if (c =? LF)%N then
        match r' with
        | [] => Some []
        | _ :: _ => None
        end
      else
        match group_of r' with
        | Some g => Some (c :: g)
        | None => None
        end
  end.

(** The search without backtracking: the first comma whose following text,
    leading whitespace dropped, gives a group. *)
Fixpoint scan (s : pystr) : option pystr :=
  match s with
  | [] => None
  | c :: s' =>
      if (c =? COMMA)%N then
        match group_of (lstrip s') with
        | Some g => Some g
        | None => scan s'
        end
      else scan s'
  end.

(** The total of the counts listed under the country [c]. *)
Fixpoint count_of (c : pystr) (counts : list (pystr * nat)) : nat :=
  match counts with
  | [] => 0
  | (c', n) :: counts' =>
      (if decide (c = c') then n else 0) + count_of c counts'
  end.

(** The order of the group keys written out: by year, month, day and hour. *)
Definition earlier (a b : date * Z) : Prop :=
  year (fst a) < year (fst b) \/
  year (fst a) = year (fst b) /\
  (month (fst a) < month (fst b) \/
   month (fst a) = month (fst b) /\
   (day (fst a) < day (fst b) \/
    day (fst a) = day (fst b) /\ snd a < snd b)).

(** The counts after the rows of [filtered], from the counts [counts]. *)
Definition tallies (filtered : list row) (counts : list (pystr * nat))
    : list (pystr * nat) :=
  fold_left (fun counts r => tally (Country r) counts) filtered counts.

(** The JSON value [j] is a feature with the fields of [d]. *)
Definition describes (j : pyval) (d : feature) : Prop :=
  exists p g c,
    getitem_str j "properties" = Done p /\
    getitem_str j "geometry" = Done g /\
    getitem_str g "coordinates" = Done c /\
    getitem_str p "place" = Done (place d) /\
    getitem_str p "mag" = Done (mag d) /\
    getitem_str p "time" = Done (PyInt (time d)) /\
    getitem_int c 0 = Done (coordinates_0 d) /\
    getitem_int c 1 = Done (coordinates_1 d) /\
    getitem_int c 2 = Done (coordinates_2 d).

(** A result of the typed loop as an outcome of the reading, its value
    through [f]. *)
Definition lift {A B} (f : A -> B) (m : result A) : outcome B :=
  match m with
  | OK a => Done (f a)
  | Raise e => Fail (Raised e)
  end.

Definition jrecord_of {T} (stamp : Timestamp -> T) (r : record) : jrecord T :=
  {| jPlace := Place r;
     jMagnitude := Magnitude r;
     jTime_UTC := stamp (Time_UTC r);
     jDepth_km := Depth_km r;
     jLongitude := Longitude r;
     jLatitude := Latitude r |}.

(** The day count of a proleptic Gregorian date, from 1970-01-01. *)
Definition days_from_civil (c : date) : Z :=
  let y := if month c <=? 2 then year c - 1 else year c in
  let era := y / 400 in
  let yoe := y - era * 400 in
  let mp := if 2 <? month c then month c - 3 else month c + 9 in
  let doy := (153 * mp + 2) / 5 + day c - 1 in
  let doe := yoe * 365 + yoe / 4 - yoe / 100 + doy in
  era * 146097 + doe - 719468.

(** ** Sample data *)

Definition HOUR : Z := NS_PER_HOUR.

(** The transitions of America/Chicago from 2024 to 2026 (tz database):
    central standard time before 2024-03-10T08:00Z, then daylight time
    from the second Sunday of March, 08:00Z, to the first Sunday of
    November, 07:00Z. *)
Definition chicago_2024_2026 : tzinfo :=
  {| tz_initial := -6 * HOUR;
     tz_transitions :=
       [ (1710057600 * 1000000000, -5 * HOUR);
         (1730617200 * 1000000000, -6 * HOUR);
         (1741507200 * 1000000000, -5 * HOUR);
         (1762066800 * 1000000000, -6 * HOUR);
         (1772956800 * 1000000000, -5 * HOUR);
         (1793516400 * 1000000000, -6 * HOUR) ] |}.

(** Sample features: 2025-01-01T03:00Z near Tokyo, 2025-07-01T03:00Z in
    Chile, one without magnitude, one without place. *)
Definition tokyo : feature :=
  {| place := PyStr (py "10km SE of Tokyo, Japan");
     mag := PyFloat 4.5%float; time := 1735700400000;
     coordinates_0 := PyFloat 139.75%float;
     coordinates_1 := PyFloat 35.5%float;
     coordinates_2 := PyInt 10 |}.

Definition chile : feature :=
  {| place := PyStr (py "30 km W of Valparaiso, Chile");
     mag := PyFloat 5.25%float; time := 1751338800000;
     coordinates_0 := PyFloat (-71.75)%float;
     coordinates_1 := PyFloat (-33.0)%float;
     coordinates_2 := PyFloat 35.25%float |}.

Definition no_magnitude : feature :=
  {| place := PyStr (py "5 km N of Anchorage, Alaska");
     mag := PyNone; time := 1735700400000;
     coordinates_0 := PyFloat (-149.875)%float;
     coordinates_1 := PyFloat 61.25%float;
     coordinates_2 := PyFloat 12.0%float |}.

Definition no_place : feature :=
  {| place := PyNone;
     mag := PyFloat 2.5%float; time := 1735700400000;
     coordinates_0 := PyFloat (-120.0)%float;
     coordinates_1 := PyFloat 36.0%float;
     coordinates_2 := PyFloat 7.0%float |}.

Definition aftershock : feature :=
  {| place := PyStr (py "12km E of Chiba, Japan");
     mag := PyFloat 3.5%float; time := 1735709400000;
     coordinates_0 := PyFloat 140.25%float;
     coordinates_1 := PyFloat 35.5%float;
     coordinates_2 := PyFloat 22.5%float |}.

(** A feature of the year 2286, too late for a timestamp, and one of the
    last hour a timestamp can hold, 2262-04-11T23:47:16.854Z. *)
Definition far : feature :=
  {| place := PyStr (py "10km SE of Tokyo, Japan");
     mag := PyFloat 4.5%float; time := 10000000000000;
     coordinates_0 := PyFloat 139.75%float;
     coordinates_1 := PyFloat 35.5%float;
     coordinates_2 := PyFloat 10.0%float |}.

Definition late : feature :=
  {| place := PyStr (py "10km SE of Tokyo, Japan");
     mag := PyFloat 4.5%float; time := 9223372036854;
     coordinates_0 := PyFloat 139.75%float;
     coordinates_1 := PyFloat 35.5%float;
     coordinates_2 := PyFloat 10.0%float |}.

(** Places that are not strings. *)
Definition listed_place : feature :=
  {| place := PyList [PyStr (py "Tokyo"); PyStr (py "Japan")];
     mag := PyFloat 4.5%float; time := 1735700400000;
     coordinates_0 := PyFloat 139.75%float;
     coordinates_1 := PyFloat 35.5%float;
     coordinates_2 := PyFloat 10.0%float |}.

(** The float of an integer below 2^53 in absolute value. *)
Definition small_float (z : Z) : float :=
  if z <? 0 then PrimFloat.opp (PrimFloat.of_uint63 (Uint63.of_Z (- z)))
  else PrimFloat.of_uint63 (Uint63.of_Z z).

Definition is_number (v : pyval) : bool :=
  match v with
  | PyInt _ | PyFloat _ => true
  | _ => false
  end.

Definition is_float (v : pyval) : bool :=
  match v with
  | PyFloat _ => true
  | _ => false
  end.

(** The inference of pandas on the columns of the samples, whose values
    are floats, ints below 2^53, strings, a list or a single [None]: a
    column of [int] and [float] values with a [float] among them is a
    column of floats, and an [int] in it is stored as its float; every
    other value of the samples is stored as it is. *)
Definition sample_astype (col : list pyval) (x : scalar) : scalar :=
  match x with
  | SInt z =>
      if forallb is_number col && existsb is_float col
         && (Z.abs z <? 2 ^ 53)
      then SFloat (small_float z)
      else x
  | _ => x
  end.

(** The row of [tokyo] in a table where another depth is a float. *)
Definition tokyo_row : row :=
  {| base := {| Place := PyStr (py "10km SE of Tokyo, Japan");
                Magnitude := PyFloat 4.5%float;
                Time_UTC := timestamp_ms 1735700400000;
                Depth_km := PyFloat 10.0%float;
                Longitude := PyFloat 139.75%float;
                Latitude := PyFloat 35.5%float |};
     Time_Central := {| value := 1735700400000000000;
                        tz := Some chicago_2024_2026 |};
     Hour := 21;
     Date := {| year := 2024; month := 12; day := 31 |};
     Year := 2024;
     Country := py "Japan" |}.

Definition chile_row : row :=
  {| base := record_of chile;
     Time_Central := {| value := 1751338800000000000;
                        tz := Some chicago_2024_2026 |};
     Hour := 22;
     Date := {| year := 2025; month := 6; day := 30 |};
     Year := 2025;
     Country := py "Chile" |}.

Definition aftershock_row : row :=
  {| base := record_of aftershock;
     Time_Central := {| value := 1735709400000000000;
                        tz := Some chicago_2024_2026 |};
     Hour := 23;
     Date := {| year := 2024; month := 12; day := 31 |};
     Year := 2024;
     Country := py "Japan" |}.

(** 2024-12-31T00:00 in Chicago, the day of [tokyo_row]. *)
Definition sample_origin : Z := 1735624800 * 1000000000.

Definition at_seconds (s : Z) (features : list feature) : access :=
  {| now := s * 1000000000; feed := features;
     stored_at := s * 1000000000 + 250000000 |}.

(** A stand-in for [pd.to_datetime(v, unit="ms")] in the examples: an integer
    gives its timestamp, null gives no time, other values are refused. *)
Definition sample_to_datetime (v : pyval) : outcome (option Timestamp) :=
  match v with
  | PyInt ms =>
      match to_datetime_ms ms with
      | OK t => Done (Some t)
      | Raise e => Fail (Raised e)
      end
  | PyNone => Done None
  | _ => Fail (Raised TypeError)
  end.

(** The features [tokyo] and [no_magnitude] as the feed gives them. *)
Definition tokyo_json : pyval :=
  PyDict
    [ (py "type", PyStr (py "Feature"));
      (py "properties",
       PyDict [ (py "mag", PyFloat 4.5%float);
               (py "place", PyStr (py "10km SE of Tokyo, Japan"));
               (py "time", PyInt 1735700400000) ]);
      (py "geometry",
       PyDict [ (py "type", PyStr (py "Point"));
               (py "coordinates",
                PyList [PyFloat 139.75%float; PyFloat 35.5%float; PyInt 10]) ]);
      (py "id", PyStr (py "us7000abcd")) ].

Definition no_magnitude_json : pyval :=
  PyDict
    [ (py "type", PyStr (py "Feature"));
      (py "properties",
       PyDict [ (py "mag", PyNone);
               (py "place", PyStr (py "5 km N of Anchorage, Alaska"));
               (py "time", PyInt 1735700400000) ]);
      (py "geometry",
       PyDict [ (py "type", PyStr (py "Point"));
               (py "coordinates",
                PyList [PyFloat (-149.875)%float; PyFloat 61.25%float;
                       PyFloat 12.0%float]) ]) ].

Definition sample_response : pyval :=
  PyDict [ (py "type", PyStr (py "FeatureCollection"));
          (py "features", PyList [tokyo_json; no_magnitude_json]) ].

(** A feature without magnitude and without coordinates. *)
Definition bare_properties : pyval :=
  PyDict [ (py "mag", PyNone); (py "place", PyNone) ].

Definition bare_geometry : pyval :=
  PyDict [ (py "coordinates", PyList []) ].

Definition bare_json : pyval :=
  PyDict [ (py "properties", bare_properties); (py "geometry", bare_geometry) ].

(** * Properties *)

(** ** The country heuristic *)

Lemma greedy_longest {R} (p : N -> bool) (s : pystr)
    (k : pystr -> pystr -> option R) (taken rest : pystr) (r : R) :
  s = taken ++ rest ->
  forallb p taken = true ->
  match rest with c :: _ => p c = false | [] => True end ->
  k taken rest = Some r ->
  greedy p s k = Some r.
Proof.
  revert s k. induction taken as [|c taken IH]; intros s k -> Hp Hstop Hk.
  - simpl. destruct rest as [|c rest]; simpl; [exact Hk|].
    rewrite Hstop. exact Hk.
  - simpl in Hp. apply andb_prop in Hp as [Hc Hp]. simpl. rewrite Hc.
    rewrite (IH (taken ++ rest) (fun t r' => k (c :: t) r')); auto.
Qed.

(** The whitespace run at the head of [s] is what [lstrip] drops. *)
Lemma lstrip_split (s : pystr) :
  exists ws, s = ws ++ lstrip s /\ forallb is_space ws = true /\
             match lstrip s with c :: _ => is_space c = false | [] => True end.
Proof.
  induction s as [|c s (ws & Hs & Hws & Hstop)]; simpl.
  - exists []. auto.
  - destruct (is_space c) eqn:Hc.
    + exists (c :: ws). simpl. rewrite Hc, Hws. split; [congruence|auto].
    + exists []. simpl. auto.
Qed.

Lemma match_after_comma (rest : pystr) :
  Forall (fun c => c <> LF) (lstrip rest) ->
  match_here country_pattern (COMMA :: rest) [] = Some (lstrip rest).
Proof.
  intros Hlf. simpl.
  destruct (lstrip_split rest) as (ws & Hs & Hws & Hstop).
  eapply greedy_longest; eauto.
  eapply (greedy_longest is_dot _ _ (lstrip rest) []).
  - now rewrite app_nil_r.
  - clear -Hlf. induction Hlf as [|c l Hc _ IH]; simpl; auto.
    unfold is_dot. apply N.eqb_neq in Hc. now rewrite Hc.
  - exact I.
  - reflexivity.
Qed.

Lemma search_skips (pre s : pystr) :
  has_comma pre = false ->
  re_search country_pattern (pre ++ s) = re_search country_pattern s.
Proof.
  induction pre as [|c pre IH]; intros Hpre; [reflexivity|].
  simpl in Hpre. apply orb_false_elim in Hpre as [Hc Hpre].
  change ((c :: pre) ++ s) with (c :: (pre ++ s)).
  unfold re_search at 1; fold re_search.
  unfold country_pattern at 1, match_here at 1.
  unfold COMMA in *. rewrite Hc. now apply IH.
Qed.

(** The lambda on a [str]. *)
Lemma country_of_PyStr (s : pystr) :
  country_of (PyStr s)
  = if has_comma s then
      match re_search country_pattern s with
      | Some g => OK g
      | None => Raise AttributeError
      end
    else OK (py "Unknown").
Proof. reflexivity. Qed.

(** C1, as the code has it: a place without comma gives "Unknown"; for a
    place with a comma, the country is the text after the FIRST comma
    without its leading whitespace (trailing whitespace stays), provided
    that text has no line feed. *)
Theorem country_after_first_comma (s : pystr) :
  (has_comma s = false -> country_of (PyStr s) = OK (py "Unknown")) /\
  (forall pre rest,
      s = pre ++ COMMA :: rest ->
      has_comma pre = false ->
      Forall (fun c => c <> LF) (lstrip rest) ->
      country_of (PyStr s) = OK (lstrip rest)).
Proof.
  split.
  - intros H. rewrite country_of_PyStr. now rewrite H.
  - intros pre rest -> Hpre Hlf. rewrite country_of_PyStr.
    assert (Hc : has_comma (pre ++ COMMA :: rest) = true).
    { unfold has_comma. rewrite existsb_app. simpl. apply orb_true_r. }
    rewrite Hc, search_skips by assumption.
    unfold re_search; fold re_search.
    now rewrite match_after_comma.
Qed.

Lemma country_after_first_comma_witness :
  country_of (PyStr (py "Unknown Region")) = OK (py "Unknown") /\
  country_of (PyStr (py "10km SE of Tokyo, Japan")) = OK (py "Japan") /\
  country_of (PyStr (py "A, B, C ")) = OK (py "B, C ").
Proof.
  split; [|split].
  - apply (country_after_first_comma (py "Unknown Region")). reflexivity.
  - apply (proj2 (country_after_first_comma (py "10km SE of Tokyo, Japan"))
             (py "10km SE of Tokyo") (py " Japan")).
    + reflexivity.
    + reflexivity.
    + vm_compute. repeat constructor; discriminate.
  - apply (proj2 (country_after_first_comma (py "A, B, C "))
             (py "A") (py " B, C ")).
    + reflexivity.
    + reflexivity.
    + vm_compute. repeat constructor; discriminate.
Defined.

(** C1 as stated fails: with two commas the code keeps everything after the
    first one. *)
Lemma country_not_after_last_comma :
  country_of (PyStr (py "A, B, C")) = OK (py "B, C") /\
  country_of (PyStr (py "A, B, C")) <> OK (py "C").
Proof. split; [reflexivity | discriminate]. Qed.

(** A line feed in the text after the comma leaves the search without a
    match, and [.group] then fails. *)
Example country_of_line_feed :
  country_of (PyStr (py "A,B" ++ LF :: py "C")) = Raise AttributeError.
Proof. reflexivity. Qed.

(** Before a line feed that ends the string, [$] matches and the line feed
    is left out of the group. *)
Example country_of_final_line_feed :
  country_of (PyStr (py "A, B" ++ [LF])) = OK (py "B").
Proof. reflexivity. Qed.

(** ** The normaliser *)

Lemma to_datetime_ms_OK (ms : Z) :
  in_bounds (ms * NS_PER_MS) = true ->
  to_datetime_ms ms = OK (timestamp_ms ms).
Proof. intros H. unfold to_datetime_ms. now rewrite H. Qed.

Lemma to_datetime_ms_Raise (ms : Z) :
  in_bounds (ms * NS_PER_MS) = false ->
  to_datetime_ms ms = Raise OutOfBoundsDatetime.
Proof. intros H. unfold to_datetime_ms. now rewrite H. Qed.

Lemma usable_false (d : feature) :
  is_None (mag d) || is_None (coordinates_2 d) = negb (usable d).
Proof.
  unfold usable. now destruct (is_None (mag d)), (is_None (coordinates_2 d)).
Qed.

Lemma normalizer_spec_cons (d : feature) (data : list feature) :
  normalizer_spec (d :: data)
  = (if usable d then [record_of d] else []) ++ normalizer_spec data.
Proof. unfold normalizer_spec. simpl. now destruct (usable d). Qed.

(** While the times are in bounds the loop appends the records of the
    usable features. *)
Lemma load_records_app (data : list feature) (records : list record) :
  Forall timely data ->
  load_records data records = OK (records ++ normalizer_spec data).
Proof.
  intros H. revert records.
  induction H as [|d data Hd _ IH]; intros records.
  - unfold normalizer_spec. simpl. now rewrite app_nil_r.
  - rewrite normalizer_spec_cons. cbn [load_records].
    rewrite usable_false. unfold timely in Hd.
    destruct (usable d); simpl.
    + rewrite to_datetime_ms_OK by auto. simpl.
      rewrite IH, <- app_assoc. reflexivity.
    + apply IH.
Qed.

(** The loop returns only when every time is in bounds. *)
Lemma load_records_OK (data : list feature) (records rs : list record) :
  load_records data records = OK rs ->
  Forall timely data /\ rs = records ++ normalizer_spec data.
Proof.
  revert records. induction data as [|d data IH]; intros records H.
  - simpl in H. injection H as <-. split; [constructor|].
    unfold normalizer_spec. simpl. now rewrite app_nil_r.
  - rewrite normalizer_spec_cons. cbn [load_records] in H.
    rewrite usable_false in H. unfold timely.
    destruct (usable d) eqn:Hu; simpl in H.
    + unfold to_datetime_ms in H.
      destruct (in_bounds (time d * NS_PER_MS)) eqn:Hb; [|discriminate].
      simpl in H. apply IH in H as [HF ->].
      split; [constructor; auto|]. now rewrite <- app_assoc.
    + apply IH in H as [HF ->]. split; [|reflexivity].
      constructor; [|assumption]. rewrite Hu. discriminate.
Qed.

(** The first usable feature with a time out of bounds ends the loop. *)
Lemma load_records_Raise (before after : list feature) (d : feature)
    (records : list record) :
  Forall timely before ->
  usable d = true ->
  in_bounds (time d * NS_PER_MS) = false ->
  load_records (before ++ d :: after) records = Raise OutOfBoundsDatetime.
Proof.
  intros H Hu Hb. revert records.
  induction H as [|d0 before Hd _ IH]; intros records.
  - cbn [app load_records]. rewrite usable_false, Hu. simpl.
    now rewrite to_datetime_ms_Raise.
  - cbn [app load_records]. rewrite usable_false. unfold timely in Hd.
    destruct (usable d0); simpl; [|apply IH].
    rewrite to_datetime_ms_OK by auto. simpl. apply IH.
Qed.

(** A list is all timely, or splits at its first usable feature with a
    time out of bounds. *)
Lemma timely_or_not (data : list feature) :
  Forall timely data \/
  exists before d after,
    data = before ++ d :: after /\ Forall timely before /\
    usable d = true /\ in_bounds (time d * NS_PER_MS) = false.
Proof.
  induction data as [|d data [IH|(before & d' & after & -> & Hb & Hu & Ho)]].
  - left. constructor.
  - destruct (usable d) eqn:Hu;
      [destruct (in_bounds (time d * NS_PER_MS)) eqn:Hb|].
    + left. constructor; [intros _; exact Hb|assumption].
    + right. exists [], d, data. auto.
    + left. constructor; [|assumption]. unfold timely. rewrite Hu.
      discriminate.
  - destruct (usable d) eqn:Hud;
      [destruct (in_bounds (time d * NS_PER_MS)) eqn:Hbd|].
    + right. exists (d :: before), d', after. repeat split; auto.
      constructor; [intros _; exact Hbd|assumption].
    + right. exists [], d, (before ++ d' :: after). auto.
    + right. exists (d :: before), d', after. repeat split; auto.
      constructor; [|assumption]. unfold timely. rewrite Hud. discriminate.
Qed.




Example load_records_sample :
  load_records [tokyo; no_magnitude; chile] []
  = OK [record_of tokyo; record_of chile].
Proof. reflexivity. Qed.

(** ** [load_data], row by row *)

Lemma apply_elem {A B} (f : A -> result B) (l : list A) (l' : list B) (b : B) :
  apply f l = OK l' -> b ∈ l' -> exists a, a ∈ l /\ f a = OK b.
Proof.
  revert l'. induction l as [|a l IH]; intros l' H Hb; simpl in H.
  - injection H as <-. inversion Hb.
  - destruct (f a) as [b0|] eqn:Hf; simpl in H; [|discriminate].
    destruct (apply f l) as [bs|] eqn:Hl; simpl in H; [|discriminate].
    injection H as <-. apply elem_of_cons in Hb as [->|Hb].
    + exists a. split; [left|assumption].
    + destruct (IH bs eq_refl Hb) as (a' & Ha' & Hfa').
      exists a'. split; [now right|assumption].
Qed.

(** The lambda of line 43 cannot tell a scalar from the value stored for
    it: it raises [TypeError] on both. *)
Lemma country_of_cell (astype : list pyval -> scalar -> scalar)
    (col : list pyval) (v : pyval) :
  country_of (cell astype col v) = country_of v.
Proof.
  unfold cell. destruct v; simpl; try reflexivity;
    match goal with |- context [astype ?c ?x] => now destruct (astype c x) end.
Qed.

Section LoadData.

Variable America_Chicago : tzinfo.
Variable astype : list pyval -> scalar -> scalar.

Lemma assemble_enrich (rs : list record) :
  let tc :=
    map (tz_convert America_Chicago) (map tz_localize_UTC (map Time_UTC rs)) in
  (cs <- apply country_of (map Place rs) ;;;
   OK (assemble rs tc (map dt_hour tc) (map dt_date tc) (map dt_year tc) cs))
  = apply (enrich America_Chicago) rs.
Proof.
  induction rs as [|r rs IH]; [reflexivity|].
  simpl in *. rewrite <- IH. unfold enrich at 1.
  destruct (country_of (Place r)) as [c|e]; simpl; [|reflexivity].
  destruct (apply country_of (map Place rs)) as [cs|e]; reflexivity.
Qed.

(** [load_data] on the records [rs] of the loop. *)
Lemma load_data_rows (data : list feature) :
  load_data America_Chicago astype data =
  (rs <- load_records data [] ;;;
   match rs with
   | [] => Raise (KeyError "Time_UTC")
   | _ :: _ => apply (enrich America_Chicago) (map (stored astype rs) rs)
   end).
Proof.
  unfold load_data. destruct (load_records data []) as [rs|e]; [|reflexivity].
  cbn [bind]. destruct rs as [|r rs]; [reflexivity|].
  rewrite <- assemble_enrich. reflexivity.
Qed.

(** A table is returned only for times in bounds and at least one usable
    feature, and holds the enriched rows of the frame. *)
Lemma load_data_OK (data : list feature) (df : list row) :
  load_data America_Chicago astype data = OK df ->
  Forall timely data /\ normalizer_spec data <> [] /\
  apply (enrich America_Chicago)
        (map (stored astype (normalizer_spec data)) (normalizer_spec data))
  = OK df.
Proof.
  rewrite load_data_rows. intros H.
  destruct (load_records data []) as [rs|e] eqn:E; [|discriminate].
  apply load_records_OK in E as [HF ->]. cbn [bind app] in H.
  destruct (normalizer_spec data) as [|r rs]; [discriminate|].
  split; [assumption|]. split; [discriminate|assumption].
Qed.

Lemma load_data_elem (data : list feature) (df : list row) (r : row) :
  load_data America_Chicago astype data = OK df -> r ∈ df ->
  exists d, d ∈ data /\ usable d = true /\
            in_bounds (time d * NS_PER_MS) = true /\
            enrich America_Chicago
              (stored astype (normalizer_spec data) (record_of d)) = OK r.
Proof.
  intros H Hr. apply load_data_OK in H as (HF & _ & H).
  destruct (apply_elem _ _ _ _ H Hr) as (a & Ha & Hfa).
  apply list_elem_of_In, in_map_iff in Ha as (r0 & <- & Ha).
  unfold normalizer_spec in Ha at 1.
  apply in_map_iff in Ha as (d & <- & Hd). apply filter_In in Hd as [Hd Hu].
  exists d. split; [now apply list_elem_of_In|].
  split; [assumption|]. split; [|assumption].
  rewrite Forall_forall in HF. apply HF; [now apply list_elem_of_In|assumption].
Qed.


(** *** No usable record *)

Lemma load_data_unusable (data : list feature) :
  List.filter usable data = [] ->
  load_data America_Chicago astype data = Raise (KeyError "Time_UTC").
Proof.
  intros H. rewrite load_data_rows, load_records_app.
  - unfold normalizer_spec. now rewrite H.
  - rewrite Forall_forall. intros d Hd Hu. exfalso.
    assert (Hin : In d (List.filter usable data)).
    { apply filter_In. split; [now apply list_elem_of_In|assumption]. }
    rewrite H in Hin. destruct Hin.
Qed.

(** C6, as the code has it: when no feature of the feed is usable,
    [load_data] raises [KeyError] on the column [Time_UTC], which the frame
    made from an empty list does not have, and no table is built. When the
    table is built and the filter keeps no row, the three aggregations are
    empty. *)
Theorem no_usable_record (data : list feature) :
  (List.filter usable data = [] ->
   load_data America_Chicago astype data = Raise (KeyError "Time_UTC")) /\
  (forall df year_filter country_filter origin,
      load_data America_Chicago astype data = OK df ->
      filtered_df df year_filter country_filter = [] ->
      heat_df (filtered_df df year_filter country_filter) = [] /\
      df_ts origin (filtered_df df year_filter country_filter) = OK [] /\
      country_counts (filtered_df df year_filter country_filter) = []).
Proof.
  split.
  - apply load_data_unusable.
  - intros df y cs origin _ ->. repeat split.
Qed.

End LoadData.

Lemma sample_table :
  load_data chicago_2024_2026 sample_astype [tokyo; no_magnitude; chile]
  = OK [tokyo_row; chile_row].
Proof. reflexivity. Qed.

(** In a feed where every depth is an [int], the depth stays one. *)
Example sample_table_int :
  option_map (fun r : row => Depth_km r)
    (match load_data chicago_2024_2026 sample_astype [tokyo] with
     | OK df => head df
     | Raise _ => None
     end)
  = Some (PyInt 10).
Proof. reflexivity. Qed.

(** In January the zone is six hours behind UTC, in July five. *)
Lemma chicago_offset_varies :
  utcoffset chicago_2024_2026 (value (Time_UTC tokyo_row)) = -6 * HOUR /\
  utcoffset chicago_2024_2026 (value (Time_UTC chile_row)) = -5 * HOUR.
Proof. split; reflexivity. Qed.


Lemma no_usable_record_witness :
  load_data chicago_2024_2026 sample_astype [no_magnitude]
  = Raise (KeyError "Time_UTC") /\
  (heat_df (filtered_df [tokyo_row; chile_row] 1999 []) = [] /\
   df_ts 0 (filtered_df [tokyo_row; chile_row] 1999 []) = OK [] /\
   country_counts (filtered_df [tokyo_row; chile_row] 1999 []) = []).
Proof.
  split.
  - apply (no_usable_record chicago_2024_2026 sample_astype [no_magnitude]).
    reflexivity.
  - apply (proj2 (no_usable_record chicago_2024_2026 sample_astype
                    [tokyo; no_magnitude; chile])
             [tokyo_row; chile_row] 1999 [] 0); reflexivity.
Defined.

(** C6 as stated fails: a feed whose only feature lacks a magnitude, and an
    empty feed, both end in an exception instead of an empty table. *)
Lemma empty_table_not_built :
  List.filter usable [no_magnitude] = [] /\
  load_data chicago_2024_2026 sample_astype [no_magnitude]
  = Raise (KeyError "Time_UTC") /\
  load_data chicago_2024_2026 sample_astype [] = Raise (KeyError "Time_UTC") /\
  load_data chicago_2024_2026 sample_astype [no_magnitude] <> OK [].
Proof. repeat split; discriminate. Qed.

(** ** A place that is not a string *)

(** C10: a feature with magnitude and depth but a null place passes the
    null checks of the loop, and the country step then raises on it:
    [load_data] fails with [TypeError]. *)
Theorem null_place_admitted :
  exists d : feature,
    place d = PyNone /\
    is_None (mag d) = false /\ is_None (coordinates_2 d) = false /\
    load_records [d] [] = OK [record_of d] /\
    country_of (Place (record_of d)) = Raise TypeError /\
    forall America_Chicago astype,
      load_data America_Chicago astype [d] = Raise TypeError.
Proof.
  exists no_place. repeat split.
  intros zone astype. rewrite load_data_rows.
  change (load_records [no_place] []) with (OK [record_of no_place]).
  cbn [bind map apply]. unfold enrich.
  cbn [stored Place]. rewrite country_of_cell. reflexivity.
Qed.

(** ** The filter *)

Lemma boolean_index_filter {A} (f : A -> bool) (P : A -> Prop)
    `{!forall x, Decision (P x)} (l : list A) :
  (forall x, f x = true <-> P x) ->
  boolean_index l (map f l) = filter P l.
Proof.
  intros Hf. induction l as [|a l IH]; [reflexivity|].
  simpl. rewrite filter_cons, IH.
  destruct (f a) eqn:Ha, (decide (P a)) as [HP|HP]; try reflexivity.
  - apply Hf in Ha. contradiction.
  - apply Hf in HP. congruence.
Qed.

Lemma isin_elem (c : pystr) (values : list pystr) :
  isin c values = true <-> c ∈ values.
Proof.
  unfold isin. rewrite existsb_exists. split.
  - intros (x & Hx & Heq). unfold pystr_eqb in Heq.
    apply bool_decide_eq_true in Heq as ->. now apply list_elem_of_In.
  - intros H. exists c. split; [now apply list_elem_of_In|].
    unfold pystr_eqb. now apply bool_decide_eq_true.
Qed.

(** C4: the filter returns the rows of the table, in the table's order,
    whose year is the chosen one and, when countries are chosen, whose
    country is one of them; with no country chosen the year alone
    decides. *)
Theorem filtered_df_exact (df : list row) (year_filter : Z)
    (country_filter : list pystr) :
  filtered_df df year_filter country_filter
  = filter (fun r => Year r = year_filter /\
                     (country_filter = [] \/ Country r ∈ country_filter)) df
  /\ filtered_df df year_filter country_filter `sublist_of` df.
Proof.
  assert (E : filtered_df df year_filter country_filter
    = filter (fun r => Year r = year_filter /\
                (country_filter = [] \/ Country r ∈ country_filter)) df).
  { unfold filtered_df.
    rewrite (boolean_index_filter (fun r => Year r =? year_filter)
               (fun r => Year r = year_filter))
      by (intros r; apply Z.eqb_eq).
    destruct country_filter as [|c cs]; simpl.
    - apply list_filter_iff. intros r. split; [auto|tauto].
    - rewrite (boolean_index_filter (fun r => isin (Country r) (c :: cs))
                 (fun r => Country r ∈ c :: cs))
        by (intros r; apply isin_elem).
      rewrite list_filter_filter. apply list_filter_iff.
      intros r. split.
      + intros [? ?]. auto.
      + intros [? [?|?]]; [discriminate|auto]. }
  split; [exact E|]. rewrite E. apply sublist_filter.
Qed.

(** The year 2024 and three countries chosen: the rows of 2024 in Japan
    stay, in the order of the table. *)
Example filtered_df_sample :
  filtered_df [aftershock_row; chile_row; tokyo_row] 2024
              [py "Japan"; py "Indonesia"; py "Chile"]
  = [aftershock_row; tokyo_row].
Proof. reflexivity. Qed.

Example filtered_df_no_country :
  filtered_df [aftershock_row; chile_row; tokyo_row] 2025 [] = [chile_row].
Proof. reflexivity. Qed.

(** ** Counts per date and hour *)

Lemma key_compare_Lt (a b : date * Z) :
  key_compare a b = Lt <->
  year (fst a) < year (fst b) \/
  year (fst a) = year (fst b) /\
  (month (fst a) < month (fst b) \/
   month (fst a) = month (fst b) /\
   (day (fst a) < day (fst b) \/
    day (fst a) = day (fst b) /\ snd a < snd b)).
Proof.
  destruct a as [[ya ma da] ha], b as [[yb mb db] hb].
  unfold key_compare, date_compare, lexico. simpl.
  destruct (Z.compare_spec ya yb);
    [|split; [lia|auto]|split; [discriminate|lia]].
  destruct (Z.compare_spec ma mb);
    [|split; [lia|auto]|split; [discriminate|lia]].
  destruct (Z.compare_spec da db);
    [|split; [lia|auto]|split; [discriminate|lia]].
  destruct (Z.compare_spec ha hb); split; try discriminate; try lia; auto.
Qed.

Lemma key_compare_Eq (a b : date * Z) :
  key_compare a b = Eq -> a = b.
Proof.
  destruct a as [[ya ma da] ha], b as [[yb mb db] hb].
  unfold key_compare, date_compare, lexico. simpl.
  destruct (Z.compare_spec ya yb); try discriminate.
  destruct (Z.compare_spec ma mb); try discriminate.
  destruct (Z.compare_spec da db); try discriminate.
  destruct (Z.compare_spec ha hb); try discriminate.
  intros _. congruence.
Qed.

Lemma key_compare_Gt (a b : date * Z) :
  key_compare a b = Gt -> key_compare b a = Lt.
Proof.
  intros H. apply key_compare_Lt.
  destruct (key_compare b a) eqn:E.
  - apply key_compare_Eq in E. subst b.
    assert (key_compare a a = Lt -> False) by (rewrite key_compare_Lt; lia).
    assert (Hn : key_compare a a <> Gt).
    { destruct a as [[ya ma da] ha].
      unfold key_compare, date_compare, lexico. simpl.
      now rewrite !Z.compare_refl. }
    contradiction.
  - now apply key_compare_Lt.
  - exfalso. revert H E.
    destruct a as [[ya ma da] ha], b as [[yb mb db] hb].
    unfold key_compare, date_compare, lexico. simpl.
    destruct (Z.compare_spec ya yb), (Z.compare_spec yb ya); try lia;
      try discriminate.
    destruct (Z.compare_spec ma mb), (Z.compare_spec mb ma); try lia;
      try discriminate.
    destruct (Z.compare_spec da db), (Z.compare_spec db da); try lia;
      try discriminate.
    destruct (Z.compare_spec ha hb), (Z.compare_spec hb ha); try lia;
      discriminate.
Qed.

Lemma key_lt_trans (a b c : date * Z) :
  key_compare a b = Lt -> key_compare b c = Lt -> key_compare a c = Lt.
Proof. rewrite !key_compare_Lt. lia. Qed.

Lemma key_lt_irrefl (a : date * Z) : key_compare a a <> Lt.
Proof. rewrite key_compare_Lt. lia. Qed.

Lemma size_of_bump (k k' : date * Z) (sizes : list (date * Z * nat)) :
  size_of k (bump k' sizes)
  = (size_of k sizes + if decide (k = k') then 1 else 0)%nat.
Proof.
  induction sizes as [|[k0 n] sizes IH]; simpl.
  - destruct (decide (k = k')); lia.
  - destruct (key_compare k' k0) eqn:E; simpl.
    + apply key_compare_Eq in E. subst k0.
      destruct (decide (k = k')); lia.
    + destruct (decide (k = k')), (decide (k = k0)); lia.
    + rewrite IH. destruct (decide (k = k')), (decide (k = k0)); lia.
Qed.

Lemma size_of_fold (k : date * Z) (keys : list (date * Z))
    (sizes : list (date * Z * nat)) :
  size_of k (fold_left (fun s k' => bump k' s) keys sizes)
  = (size_of k sizes + length (filter (fun k' => k' = k) keys))%nat.
Proof.
  revert sizes. induction keys as [|k' keys IH]; intros sizes; simpl.
  - lia.
  - rewrite IH, size_of_bump, filter_cons.
    destruct (decide (k = k')), (decide (k' = k)); simpl; try lia; congruence.
Qed.

Lemma bump_keys (k : date * Z) (sizes : list (date * Z * nat))
    (x : date * Z * nat) :
  x ∈ bump k sizes -> fst x = k \/ exists y, y ∈ sizes /\ fst y = fst x.
Proof.
  induction sizes as [|[k0 n] sizes IH]; simpl.
  - intros H. apply list_elem_of_singleton in H as ->. now left.
  - destruct (key_compare k k0) eqn:E.
    + intros H. apply elem_of_cons in H as [->|H].
      * right. exists (k0, n). split; [left|reflexivity].
      * right. exists x. split; [now right|reflexivity].
    + intros H. apply elem_of_cons in H as [->|H]; [now left|].
      right. exists x. split; [assumption|reflexivity].
    + intros H. apply elem_of_cons in H as [->|H].
      * right. exists (k0, n). split; [left|reflexivity].
      * destruct (IH H) as [?|(y & Hy & Hyx)]; [now left|].
        right. exists y. split; [now right|assumption].
Qed.

Lemma bump_sorted (k : date * Z) (sizes : list (date * Z * nat)) :
  StronglySorted key_lt sizes -> StronglySorted key_lt (bump k sizes).
Proof.
  induction 1 as [|[k0 n] sizes Hs IH Hall]; simpl.
  - repeat constructor.
  - destruct (key_compare k k0) eqn:E.
    + apply key_compare_Eq in E. subst k0. constructor; assumption.
    + constructor; [now constructor|].
      constructor; [exact E|].
      eapply Forall_impl; [exact Hall|].
      intros y Hy. unfold key_lt in *. simpl in *.
      eapply key_lt_trans; eassumption.
    + constructor; [assumption|].
      apply Forall_forall. intros x Hx.
      destruct (bump_keys _ _ _ Hx) as [Hk|(y & Hy & Hyx)].
      * unfold key_lt. simpl. rewrite Hk. now apply key_compare_Gt.
      * rewrite Forall_forall in Hall. specialize (Hall y Hy).
        unfold key_lt in *. now rewrite <- Hyx.
Qed.

Lemma groupby_size_sorted (keys : list (date * Z)) :
  StronglySorted key_lt (groupby_size keys).
Proof.
  unfold groupby_size.
  assert (G : forall sizes, StronglySorted key_lt sizes ->
    StronglySorted key_lt (fold_left (fun s k => bump k s) keys sizes)).
  { induction keys as [|k keys IH]; intros sizes Hs; simpl; [assumption|].
    apply IH. now apply bump_sorted. }
  apply G. constructor.
Qed.

Lemma sorted_size_of (sizes : list (date * Z * nat)) (k : date * Z) (n : nat) :
  StronglySorted key_lt sizes -> (k, n) ∈ sizes -> size_of k sizes = n.
Proof.
  induction 1 as [|[k0 n0] sizes Hs IH Hall]; intros Hin.
  - inversion Hin.
  - simpl. apply elem_of_cons in Hin as [Heq|Hin].
    + injection Heq as <- <-. rewrite decide_True by reflexivity.
      assert (size_of k sizes = 0%nat); [|lia].
      clear -Hall. induction Hall as [|[k1 n1] l Hlt _ IHl]; [reflexivity|].
      simpl. rewrite IHl. unfold key_lt in Hlt. simpl in Hlt.
      destruct (decide (k = k1)) as [->|?]; [|reflexivity].
      now apply key_lt_irrefl in Hlt.
    + rewrite Forall_forall in Hall. pose proof (Hall _ Hin) as Hlt.
      unfold key_lt in Hlt. simpl in Hlt.
      destruct (decide (k = k0)) as [->|?].
      * now apply key_lt_irrefl in Hlt.
      * now rewrite IH.
Qed.

Lemma size_of_positive (sizes : list (date * Z * nat)) (k : date * Z) :
  (0 < size_of k sizes)%nat -> exists n, (k, n) ∈ sizes.
Proof.
  induction sizes as [|[k0 n0] sizes IH]; simpl; [lia|].
  destruct (decide (k = k0)) as [->|Hne].
  - intros _. exists n0. left.
  - intros H. destruct IH as [m Hm]; [lia|]. exists m. now right.
Qed.

Lemma count_keys (filtered : list row) (d : date) (h : Z) :
  length (filter (fun k' => k' = (d, h))
                 (map (fun r => (Date r, Hour r)) filtered))
  = length (filter (fun r => Date r = d /\ Hour r = h) filtered).
Proof.
  induction filtered as [|r l IH]; [reflexivity|].
  simpl. rewrite !filter_cons.
  destruct (decide ((Date r, Hour r) = (d, h))) as [E|E],
           (decide (Date r = d /\ Hour r = h)) as [F|F]; simpl.
  - now rewrite IH.
  - injection E as ? ?. tauto.
  - destruct F. congruence.
  - exact IH.
Qed.

Lemma bump_sum (k : date * Z) (sizes : list (date * Z * nat)) :
  sum_list_with snd (bump k sizes) = S (sum_list_with snd sizes).
Proof.
  induction sizes as [|[k0 n] sizes IH]; [reflexivity|].
  cbn [bump]. destruct (key_compare k k0).
  - simpl. lia.
  - reflexivity.
  - change (n + sum_list_with snd (bump k sizes)
            = S (n + sum_list_with snd sizes))%nat.
    rewrite IH. lia.
Qed.

Lemma bump_positive (k : date * Z) (sizes : list (date * Z * nat)) :
  Forall (fun p => (0 < snd p)%nat) sizes ->
  Forall (fun p => (0 < snd p)%nat) (bump k sizes).
Proof.
  induction 1 as [|[k0 n] sizes Hn Hall IH]; simpl.
  - repeat constructor.
  - destruct (key_compare k k0); repeat constructor; simpl in *; auto; lia.
Qed.

Lemma groupby_size_fold (keys : list (date * Z))
    (sizes : list (date * Z * nat)) :
  Forall (fun p => (0 < snd p)%nat) sizes ->
  Forall (fun p => (0 < snd p)%nat)
         (fold_left (fun s k => bump k s) keys sizes) /\
  sum_list_with snd (fold_left (fun s k => bump k s) keys sizes)
  = (sum_list_with snd sizes + length keys)%nat.
Proof.
  revert sizes. induction keys as [|k keys IH]; intros sizes Hpos; simpl.
  - split; [exact Hpos|lia].
  - destruct (IH (bump k sizes) (bump_positive k sizes Hpos)) as [H1 H2].
    split; [exact H1|]. rewrite H2, bump_sum. lia.
Qed.

(** Every row of the filtered table has its pair in [heat_df]. *)
Lemma heat_df_complete (filtered : list row) (r : row) :
  r ∈ filtered -> exists n, (Date r, Hour r, n) ∈ heat_df filtered.
Proof.
  intros Hr. apply size_of_positive. unfold heat_df, groupby_size.
  rewrite size_of_fold, count_keys. simpl.
  induction Hr as [r l|r r' l _ IH]; rewrite filter_cons.
  - rewrite decide_True by auto. simpl. lia.
  - destruct (decide _); simpl; lia.
Qed.

(** The size listed under a key is the number of rows with that key. *)
Lemma heat_df_size_of (filtered : list row) (d : date) (h : Z) :
  size_of (d, h) (heat_df filtered)
  = length (filter (fun r => Date r = d /\ Hour r = h) filtered).
Proof.
  unfold heat_df, groupby_size. rewrite size_of_fold. simpl. apply count_keys.
Qed.



(** With no row at all nothing is listed. *)
Example heat_df_empty : heat_df [] = [].
Proof. reflexivity. Qed.

Example heat_df_sample :
  heat_df [aftershock_row; chile_row; tokyo_row; tokyo_row]
  = [ ({| year := 2024; month := 12; day := 31 |}, 21, 2%nat);
      ({| year := 2024; month := 12; day := 31 |}, 23, 1%nat);
      ({| year := 2025; month := 6; day := 30 |}, 22, 1%nat) ].
Proof. reflexivity. Qed.

(** The chart's counts: Japan twice and Chile once, Japan first. *)
Example country_counts_sample :
  country_counts [tokyo_row; chile_row; aftershock_row]
  = [(py "Japan", 2%nat); (py "Chile", 1%nat)].
Proof. reflexivity. Qed.

(** ** The hourly series *)

Lemma in_bin_spec (b t : Z) :
  in_bin b t = true <-> b <= t < b + NS_PER_HOUR.
Proof.
  unfold in_bin. rewrite andb_true_iff, Z.leb_le, Z.ltb_lt. tauto.
Qed.

Lemma fold_min_spec (ts : list Z) (t : Z) :
  let m := fold_left Z.min ts t in
  m ∈ t :: ts /\ forall x, x ∈ t :: ts -> m <= x.
Proof.
  revert t. induction ts as [|a ts IH]; intros t; simpl.
  - split; [left|]. intros x Hx. apply list_elem_of_singleton in Hx. lia.
  - destruct (IH (Z.min t a)) as [Hin Hle]. split.
    + apply elem_of_cons in Hin as [Hm|Hin].
      * rewrite Hm. destruct (Z.min_spec t a) as [[_ ->]|[_ ->]];
          [left|right; left].
      * right. now right.
    + intros x Hx. pose proof (Hle (Z.min t a) (list_elem_of_here _ _)).
      apply elem_of_cons in Hx as [->|Hx]; [lia|].
      apply elem_of_cons in Hx as [->|Hx]; [lia|].
      apply Hle. now right.
Qed.

Lemma fold_max_spec (ts : list Z) (t : Z) :
  let m := fold_left Z.max ts t in
  m ∈ t :: ts /\ forall x, x ∈ t :: ts -> x <= m.
Proof.
  revert t. induction ts as [|a ts IH]; intros t; simpl.
  - split; [left|]. intros x Hx. apply list_elem_of_singleton in Hx. lia.
  - destruct (IH (Z.max t a)) as [Hin Hle]. split.
    + apply elem_of_cons in Hin as [Hm|Hin].
      * rewrite Hm. destruct (Z.max_spec t a) as [[_ ->]|[_ ->]];
          [right; left|left].
      * right. now right.
    + intros x Hx. pose proof (Hle (Z.max t a) (list_elem_of_here _ _)).
      apply elem_of_cons in Hx as [->|Hx]; [lia|].
      apply elem_of_cons in Hx as [->|Hx]; [lia|].
      apply Hle. now right.
Qed.

(** The edges [adjust_dates_anchored] returns lie on one grid of step one
    hour, the first not after [first] and less than an hour before it, the
    last after [last] and at most an hour after it. *)
Lemma adjust_dates_anchored_spec (first last origin : Z) :
  first <= last ->
  exists (start : Z) (n : nat),
    adjust_dates_anchored first last origin = (start, edge start n) /\
    Z.to_nat ((edge start n - start) / NS_PER_HOUR) = n /\
    (0 < n)%nat /\
    start <= first < start + NS_PER_HOUR /\
    edge start (n - 1) <= last < edge start n.
Proof.
  intros Hle. unfold adjust_dates_anchored, edge.
  pose proof (Z.mod_pos_bound (first - origin) NS_PER_HOUR eq_refl) as Hf.
  pose proof (Z.mod_pos_bound (last - origin) NS_PER_HOUR eq_refl) as Hl.
  pose proof (Z.div_mod (first - origin) NS_PER_HOUR) as Ef.
  pose proof (Z.div_mod (last - origin) NS_PER_HOUR) as El.
  pose proof (Z.div_le_mono (first - origin) (last - origin) NS_PER_HOUR
                eq_refl) as Hq.
  set (fo := (first - origin) mod NS_PER_HOUR) in *.
  set (lo := (last - origin) mod NS_PER_HOUR) in *.
  set (q1 := (first - origin) / NS_PER_HOUR) in *.
  set (q2 := (last - origin) / NS_PER_HOUR) in *.
  assert (E1 : (if 0 <? fo then first - fo else first) = first - fo)
    by (destruct (Z.ltb_spec 0 fo); lia).
  assert (E2 : (if 0 <? lo then last + (NS_PER_HOUR - lo)
                else last + NS_PER_HOUR) = last + NS_PER_HOUR - lo)
    by (destruct (Z.ltb_spec 0 lo); lia).
  rewrite E1, E2.
  exists (first - fo), (Z.to_nat (q2 - q1 + 1)).
  assert (Hn : Z.of_nat (Z.to_nat (q2 - q1 + 1)) = q2 - q1 + 1) by lia.
  assert (Hd : first - fo + Z.of_nat (Z.to_nat (q2 - q1 + 1)) * NS_PER_HOUR
               = last + NS_PER_HOUR - lo).
  { rewrite Hn. unfold NS_PER_HOUR in *. lia. }
  split; [now rewrite Hd|]. split.
  { replace (first - fo + Z.of_nat (Z.to_nat (q2 - q1 + 1)) * NS_PER_HOUR
             - (first - fo))
      with ((q2 - q1 + 1) * NS_PER_HOUR) by lia.
    now rewrite Z.div_mul. }
  split; [lia|]. split; [unfold NS_PER_HOUR in *; lia|].
  replace (Z.of_nat (Z.to_nat (q2 - q1 + 1) - 1)) with (q2 - q1) by lia.
  unfold NS_PER_HOUR in *. lia.
Qed.

Lemma hits_grid (start t : Z) (n : nat) :
  hits (map (edge start) (seq 0 n)) t
  = if bool_decide (start <= t < edge start n) then 1%nat else 0%nat.
Proof.
  unfold hits. induction n as [|n IH].
  - simpl. rewrite bool_decide_eq_false_2; [reflexivity|].
    unfold edge. simpl. lia.
  - rewrite seq_S, map_app, sum_list_with_app, IH. simpl.
    unfold in_bin, edge.
    repeat case_bool_decide;
      destruct (Z.leb_spec (start + Z.of_nat n * NS_PER_HOUR) t),
               (Z.ltb_spec t (start + Z.of_nat n * NS_PER_HOUR + NS_PER_HOUR));
      simpl; unfold NS_PER_HOUR in *; lia.
Qed.

Lemma sum_list_with_plus {A} (f g : A -> nat) (l : list A) :
  sum_list_with (fun x => (f x + g x)%nat) l
  = (sum_list_with f l + sum_list_with g l)%nat.
Proof. induction l as [|a l IH]; simpl; lia. Qed.

Lemma sum_sizes_cons (labels index : list Z) (t : Z) :
  sum_list_with (fun b => length (List.filter (in_bin b) (t :: index))) labels
  = (hits labels t
     + sum_list_with (fun b => length (List.filter (in_bin b) index))
         labels)%nat.
Proof.
  unfold hits. induction labels as [|b labels IH]; simpl; [reflexivity|].
  simpl in IH. rewrite IH. destruct (in_bin b t); simpl; lia.
Qed.

Lemma sum_sizes (labels index : list Z) :
  sum_list_with (fun b => length (List.filter (in_bin b) index)) labels
  = sum_list_with (hits labels) index.
Proof.
  induction index as [|t index IH].
  - simpl. induction labels as [|b labels IHl]; simpl; [reflexivity|exact IHl].
  - rewrite sum_sizes_cons, IH. reflexivity.
Qed.

Lemma length_filter_bool {A} (f : A -> bool) (P : A -> Prop)
    `{!forall x, Decision (P x)} (l : list A) :
  (forall x, f x = true <-> P x) ->
  length (List.filter f l) = length (filter P l).
Proof.
  intros Hf. induction l as [|a l IH]; [reflexivity|].
  simpl. rewrite filter_cons.
  destruct (f a) eqn:Ha, (decide (P a)) as [HP|HP]; simpl; auto.
  - apply Hf in Ha. contradiction.
  - apply Hf in HP. congruence.
Qed.

(** Moving the anchor by whole hours leaves the series as it is: for a zone
    whose offsets are whole hours, any local midnight gives the grid of
    the full hours. *)
Lemma adjust_dates_anchored_hours (first last origin k : Z) :
  adjust_dates_anchored first last (origin + k * NS_PER_HOUR)
  = adjust_dates_anchored first last origin.
Proof.
  unfold adjust_dates_anchored.
  replace (first - (origin + k * NS_PER_HOUR))
    with (first - origin + (- k) * NS_PER_HOUR) by lia.
  replace (last - (origin + k * NS_PER_HOUR))
    with (last - origin + (- k) * NS_PER_HOUR) by lia.
  now rewrite !Z.mod_add by discriminate.
Qed.

Lemma resample_1H_size_hours (origin k : Z) (index : list Z) :
  resample_1H_size (origin + k * NS_PER_HOUR) index
  = resample_1H_size origin index.
Proof.
  unfold resample_1H_size, range_edges.
  destruct index as [|t ts]; [reflexivity|].
  now rewrite adjust_dates_anchored_hours.
Qed.

(** The series over a non-empty index, by the bounds of its edges. *)
Lemma resample_1H_size_cons (origin t0 : Z) (ts : list Z) :
  resample_1H_size origin (t0 :: ts)
  = if in_bounds (fst (range_edges origin t0 ts))
       && in_bounds (snd (range_edges origin t0 ts))
    then OK (time_bins (fst (range_edges origin t0 ts))
                       (snd (range_edges origin t0 ts)) (t0 :: ts))
    else Raise OutOfBoundsDatetime.
Proof.
  unfold resample_1H_size. now destruct (range_edges origin t0 ts).
Qed.

(** The bins over a non-empty index are a full grid. *)
Lemma resample_grid (origin t0 : Z) (ts : list Z) :
  exists (start : Z) (n : nat),
    range_edges origin t0 ts = (start, edge start n) /\
    time_bins start (edge start n) (t0 :: ts)
    = map (fun i => (edge start i,
                     length (List.filter (in_bin (edge start i)) (t0 :: ts))))
          (seq 0 n) /\
    (0 < n)%nat /\
    (exists t, t ∈ t0 :: ts /\ (forall x, x ∈ t0 :: ts -> t <= x) /\
               start <= t < start + NS_PER_HOUR) /\
    (exists t, t ∈ t0 :: ts /\ (forall x, x ∈ t0 :: ts -> x <= t) /\
               edge start (n - 1) <= t < edge start n).
Proof.
  destruct (fold_min_spec ts t0) as [Hmin_in Hmin].
  destruct (fold_max_spec ts t0) as [Hmax_in Hmax].
  destruct (adjust_dates_anchored_spec (fold_left Z.min ts t0)
              (fold_left Z.max ts t0) origin)
    as (start & n & Ha & Hn & Hpos & Hf & Hl).
  { apply Hmin. exact Hmax_in. }
  exists start, n. split; [exact Ha|]. split; [|split; [exact Hpos|split]].
  - unfold time_bins, bin_labels. rewrite Hn, map_map. reflexivity.
  - eauto.
  - eauto.
Qed.

Lemma sum_list_with_map {A B} (f : B -> nat) (g : A -> B) (l : list A) :
  sum_list_with f (map g l) = sum_list_with (fun x => f (g x)) l.
Proof. induction l as [|a l IH]; simpl; [reflexivity|now rewrite IH]. Qed.

Lemma sum_list_with_ones {A} (f : A -> nat) (l : list A) :
  (forall x, x ∈ l -> f x = 1%nat) -> sum_list_with f l = length l.
Proof.
  induction l as [|a l IH]; intros H; simpl; [reflexivity|].
  rewrite H by left. rewrite IH; [reflexivity|].
  intros x Hx. apply H. now right.
Qed.

(** C7, as the code has it: over a non-empty filtered table the grid of
    one-hour intervals, closed on the left and open on the right, runs from
    the bin that holds the earliest timestamp to the bin that holds the
    latest; every row falls in one bin and no other, and the numbers of
    rows per bin add up to the number of rows. When the first and the last
    edge of the grid are timestamps pandas can hold, [df_ts] lists the bins
    one after the other, each with the number of rows whose timestamp falls
    in it, be it zero. When the last edge, up to an hour after the latest
    timestamp, is out of bounds, line 112 raises [OutOfBoundsDatetime] and
    there is no series. *)
Theorem df_ts_buckets (origin : Z) (filtered : list row) :
  filtered <> [] ->
  let times := map (fun r => value (Time_Central r)) filtered in
  let count := fun b =>
    length (filter (fun t => b <= t < b + NS_PER_HOUR) times) in
  let start := fst (edges origin filtered) in
  let stop := snd (edges origin filtered) in
  exists n : nat,
    let grid := map (fun i => (edge start i, count (edge start i))) (seq 0 n) in
    stop = edge start n /\
    (0 < n)%nat /\
    (exists t, t ∈ times /\ (forall x, x ∈ times -> t <= x) /\
               start <= t < start + NS_PER_HOUR) /\
    (exists t, t ∈ times /\ (forall x, x ∈ times -> x <= t) /\
               edge start (n - 1) <= t < edge start n) /\
    (forall t, t ∈ times ->
       exists i, (i < n)%nat /\
         edge start i <= t < edge start i + NS_PER_HOUR /\
         forall j, (j < n)%nat ->
           edge start j <= t < edge start j + NS_PER_HOUR -> j = i) /\
    sum_list_with snd grid = length filtered /\
    (in_bounds start = true -> in_bounds stop = true ->
     df_ts origin filtered = OK grid) /\
    (in_bounds start = true -> in_bounds stop = false ->
     df_ts origin filtered = Raise OutOfBoundsDatetime) /\
    (forall s, df_ts origin filtered = OK s ->
               in_bounds start = true /\ in_bounds stop = true /\ s = grid).
Proof.
  intros Hne times count. unfold df_ts, edges. fold times.
  assert (Hlen : length times = length filtered) by apply length_map.
  destruct times as [|t0 ts] eqn:Et.
  { destruct filtered; [contradiction|discriminate]. }
  destruct (resample_grid origin t0 ts)
    as (start & n & Hedges & Hgrid & Hpos & Hfirst & Hlast).
  assert (Hrange : forall t, t ∈ t0 :: ts -> start <= t < edge start n).
  { intros t Ht.
    destruct Hfirst as (a & _ & Ha & Ha').
    destruct Hlast as (b & _ & Hb & Hb').
    specialize (Ha t Ht). specialize (Hb t Ht). lia. }
  assert (Hbins : time_bins start (edge start n) (t0 :: ts)
                  = map (fun i => (edge start i, count (edge start i)))
                        (seq 0 n)).
  { rewrite Hgrid. apply map_ext. intros i. f_equal. unfold count.
    apply length_filter_bool. intros t. apply in_bin_spec. }
  rewrite resample_1H_size_cons, Hedges. cbn [fst snd].
  exists n. cbv zeta.
  split; [reflexivity|]. split; [exact Hpos|]. split; [exact Hfirst|].
  split; [exact Hlast|]. split; [|split; [|split; [|split]]].
  - intros t Ht. specialize (Hrange t Ht). unfold edge in *.
    pose proof (Z.div_mod (t - start) NS_PER_HOUR) as Ed.
    pose proof (Z.mod_pos_bound (t - start) NS_PER_HOUR eq_refl) as Hm.
    assert (Hq : 0 <= (t - start) / NS_PER_HOUR)
      by (apply Z.div_pos; unfold NS_PER_HOUR; lia).
    exists (Z.to_nat ((t - start) / NS_PER_HOUR)).
    rewrite Z2Nat.id by exact Hq.
    unfold NS_PER_HOUR in *. repeat split; try lia.
  - rewrite <- Hbins, Hgrid.
    rewrite (sum_list_with_map snd). simpl.
    rewrite <- (sum_list_with_map
      (fun b => length (List.filter (in_bin b) (t0 :: ts))) (edge start)).
    rewrite sum_sizes, <- Hlen. apply sum_list_with_ones.
    intros t Ht. rewrite hits_grid.
    now rewrite bool_decide_eq_true_2 by auto.
  - intros -> ->. simpl. now rewrite Hbins.
  - intros -> ->. reflexivity.
  - intros s Hs.
    destruct (in_bounds start), (in_bounds (edge start n));
      try discriminate.
    simpl in Hs. injection Hs as <-. now rewrite Hbins.
Qed.

Lemma df_ts_buckets_witness :
  df_ts sample_origin [aftershock_row; tokyo_row]
  = OK [ (1735700400 * 1000000000, 1%nat);
         (1735704000 * 1000000000, 0%nat);
         (1735707600 * 1000000000, 1%nat) ].
Proof.
  pose proof (df_ts_buckets sample_origin [aftershock_row; tokyo_row]) as H.
  cbv zeta in H.
  destruct H as (n & Hstop & _ & _ & _ & _ & _ & Hok & _); [discriminate|].
  assert (E1 : fst (edges sample_origin [aftershock_row; tokyo_row])
               = 1735700400000000000) by reflexivity.
  assert (E2 : snd (edges sample_origin [aftershock_row; tokyo_row])
               = 1735711200000000000) by reflexivity.
  rewrite E1, E2 in *. unfold edge, NS_PER_HOUR in Hstop.
  assert (Hn : n = 3%nat) by lia.
  subst n. rewrite Hok by reflexivity. reflexivity.
Defined.

(** C7 as stated fails: the table of the single feature [late], an event of
    2262-04-11T23:47:16.854Z, is not empty, and for it line 112 raises
    instead of giving a series, whatever the zone and for every anchor that
    is a whole number of milliseconds: the edge after the event is past the
    last timestamp. *)
Lemma late_table_no_series :
  usable late = true /\
  in_bounds (time late * NS_PER_MS) = true /\
  (forall zone astype origin,
      origin mod NS_PER_MS = 0 ->
      exists r,
        load_data zone astype [late] = OK [r] /\
        filtered_df [r] (Year r) [] = [r] /\
        df_ts origin (filtered_df [r] (Year r) []) = Raise OutOfBoundsDatetime).
Proof.
  split; [reflexivity|]. split; [reflexivity|].
  intros zone astype origin Ho.
  rewrite load_data_rows.
  change (load_records [late] []) with (OK [record_of late]).
  cbn [bind map apply]. unfold enrich. cbn [stored Place].
  rewrite country_of_cell.
  change (country_of (Place (record_of late))) with (OK (py "Japan")).
  cbn [bind].
  eexists. split; [reflexivity|].
  assert (Hf : forall r : row, filtered_df [r] (Year r) [] = [r]).
  { intros r. unfold filtered_df. simpl. now rewrite Z.eqb_refl. }
  rewrite Hf. split; [reflexivity|].
  unfold df_ts. cbn [map Time_Central tz_convert tz_localize_UTC value
                     Time_UTC stored record_of timestamp_ms].
  rewrite resample_1H_size_cons.
  unfold range_edges, adjust_dates_anchored. cbn [fold_left fst snd].
  unfold time. cbn [late].
  assert (Hlast :
    in_bounds
      (if 0 <? (9223372036854 * NS_PER_MS - origin) mod NS_PER_HOUR
       then 9223372036854 * NS_PER_MS
            + (NS_PER_HOUR
               - (9223372036854 * NS_PER_MS - origin) mod NS_PER_HOUR)
       else 9223372036854 * NS_PER_MS + NS_PER_HOUR) = false).
  { unfold in_bounds. apply andb_false_iff. right. apply Z.leb_gt.
    unfold INT64_MAX, NS_PER_HOUR, NS_PER_MS in *.
    destruct (Z.ltb_spec 0 ((9223372036854 * 1000000 - origin)
                            mod 3600000000000));
      Z.to_euclidean_division_equations; lia. }
  rewrite Hlast, andb_false_r. reflexivity.
Qed.

(** Events at 21:00 and 23:30: the bin of 22:00 is listed, with zero. *)
Example df_ts_sample :
  df_ts sample_origin [aftershock_row; tokyo_row]
  = OK [ (1735700400 * 1000000000, 1%nat);
         (1735704000 * 1000000000, 0%nat);
         (1735707600 * 1000000000, 1%nat) ].
Proof. reflexivity. Qed.

(** ** The aggregations leave the filtered table as it is *)

Lemma bindM_ok {A B} (m : M A) (k : A -> M B) (h h' : store) (a : A) :
  m h = OK (a, h') -> bindM m k h = k a h'.
Proof. unfold bindM. now intros ->. Qed.

Lemma get_ok (h : store) (r : ref) (o : object) :
  h !! r = Some o -> get r h = OK (o, h).
Proof. unfold get. now intros ->. Qed.

Lemma get_frame_ok (h : store) (r : ref) (t : list row) :
  h !! r = Some (Frame t) -> get_frame r h = OK (t, h).
Proof.
  intros H. unfold get_frame. now rewrite (bindM_ok _ _ _ _ _ (get_ok _ _ _ H)).
Qed.

Lemma lookup_new (h : store) (o : object) : (h ++ [o]) !! length h = Some o.
Proof. now rewrite list_lookup_middle. Qed.

Lemma lookup_old (h k : store) (r : ref) (o : object) :
  h !! r = Some o -> (h ++ k) !! r = Some o.
Proof. apply lookup_app_l_Some. Qed.

Lemma heat_df_stmt_run (origin : Z) (h : store) (filtered : ref)
    (t : list row) :
  h !! filtered = Some (Frame t) ->
  heat_df_stmt origin filtered h
  = OK (length ((h ++ [GroupBy filtered]) ++ [HeatCounts (heat_df t)]),
        ((h ++ [GroupBy filtered]) ++ [HeatCounts (heat_df t)])
          ++ [HeatCounts (heat_df t)]).
Proof.
  intros H. unfold heat_df_stmt, groupby, size, reset_index.
  rewrite (bindM_ok _ _ h (h ++ [GroupBy filtered]) (length h)).
  2:{ rewrite (bindM_ok _ _ _ _ _ (get_frame_ok _ _ _ H)). reflexivity. }
  rewrite (bindM_ok _ _ _
             ((h ++ [GroupBy filtered]) ++ [HeatCounts (heat_df t)])
             (length (h ++ [GroupBy filtered]))).
  2:{ rewrite (bindM_ok _ _ _ _ _ (get_ok _ _ _ (lookup_new h _))).
      rewrite (bindM_ok _ _ _ _ _
                 (get_frame_ok _ _ _ (lookup_old h [_] _ _ H))).
      reflexivity. }
  rewrite (bindM_ok _ _ _ _ _ (get_ok _ _ _ (lookup_new _ _))). reflexivity.
Qed.

Lemma df_ts_stmt_run (origin : Z) (h : store) (filtered : ref)
    (t : list row) (c : list (Z * nat)) :
  h !! filtered = Some (Frame t) ->
  df_ts origin t = OK c ->
  df_ts_stmt origin filtered h
  = OK (length (((h ++ [Frame t]) ++ [Resampler (length h)])
                  ++ [HourCounts c]),
        (((h ++ [Frame t]) ++ [Resampler (length h)])
           ++ [HourCounts c])
          ++ [HourCounts c]).
Proof.
  intros H Hc. unfold df_ts_stmt, set_index, resample, size, reset_index.
  rewrite (bindM_ok _ _ h (h ++ [Frame t]) (length h)).
  2:{ rewrite (bindM_ok _ _ _ _ _ (get_frame_ok _ _ _ H)). reflexivity. }
  rewrite (bindM_ok _ _ _ ((h ++ [Frame t]) ++ [Resampler (length h)])
             (length (h ++ [Frame t]))).
  2:{ rewrite (bindM_ok _ _ _ _ _ (get_frame_ok _ _ _ (lookup_new h _))).
      reflexivity. }
  rewrite (bindM_ok _ _ _
             (((h ++ [Frame t]) ++ [Resampler (length h)])
                ++ [HourCounts c])
             (length ((h ++ [Frame t]) ++ [Resampler (length h)]))).
  2:{ rewrite (bindM_ok _ _ _ _ _ (get_ok _ _ _ (lookup_new _ _))).
      rewrite (bindM_ok _ _ _ _ _
                 (get_frame_ok _ _ _ (lookup_old _ [_] _ _ (lookup_new h _)))).
      rewrite Hc. reflexivity. }
  rewrite (bindM_ok _ _ _ _ _ (get_ok _ _ _ (lookup_new _ _))). reflexivity.
Qed.

(** When the resampling raises, so does the statement of line 112. *)
Lemma df_ts_stmt_raise (origin : Z) (h : store) (filtered : ref)
    (t : list row) (e : exn) :
  h !! filtered = Some (Frame t) ->
  df_ts origin t = Raise e ->
  df_ts_stmt origin filtered h = Raise e.
Proof.
  intros H He. unfold df_ts_stmt, set_index, resample, size.
  rewrite (bindM_ok _ _ h (h ++ [Frame t]) (length h)).
  2:{ rewrite (bindM_ok _ _ _ _ _ (get_frame_ok _ _ _ H)). reflexivity. }
  rewrite (bindM_ok _ _ _ ((h ++ [Frame t]) ++ [Resampler (length h)])
             (length (h ++ [Frame t]))).
  2:{ rewrite (bindM_ok _ _ _ _ _ (get_frame_ok _ _ _ (lookup_new h _))).
      reflexivity. }
  unfold bindM at 1.
  rewrite (bindM_ok _ _ _ _ _ (get_ok _ _ _ (lookup_new _ _))).
  rewrite (bindM_ok _ _ _ _ _
             (get_frame_ok _ _ _ (lookup_old _ [_] _ _ (lookup_new h _)))).
  rewrite He. reflexivity.
Qed.

Lemma country_chart_stmt_run (h : store) (filtered : ref) (t : list row) :
  h !! filtered = Some (Frame t) ->
  country_chart_stmt filtered h
  = OK (length (h ++ [Chart filtered]),
        (h ++ [Chart filtered]) ++ [CountryCounts (country_counts t)]).
Proof.
  intros H. unfold country_chart_stmt.
  rewrite (bindM_ok _ _ _ _ _ (get_frame_ok _ _ _ H)).
  rewrite (bindM_ok _ _ h (h ++ [Chart filtered]) (length h)) by reflexivity.
  rewrite (bindM_ok _ _ _ _ _ (get_frame_ok _ _ _ (lookup_old h [_] _ _ H))).
  reflexivity.
Qed.

(** From the equation of one run, the two runs in a row: the frame is
    still at its reference in the store the first run leaves. *)
Ltac run_twice run H :=
  let R1 := fresh "R1" in
  let H1 := fresh "H1" in
  let R2 := fresh "R2" in
  pose proof (run _ _ _ H) as R1;
  match type of R1 with
  | _ = OK (_, ?h1) =>
      match type of H with
      | _ !! ?f = Some ?o =>
          assert (H1 : h1 !! f = Some o)
            by (repeat apply lookup_old; exact H);
          pose proof (run _ _ _ H1) as R2
      end
  end;
  eexists _, _, _, _; split; [exact R1|]; split; [exact R2|];
  split; [|split].

(** C8: each of the three aggregations, run twice on the same filtered
    table, gives the same result both times and changes neither the table
    nor any other object that existed before. Where line 112 raises for
    the table, it raises the same exception on every run. *)
Theorem aggregations_pure (origin : Z) (h : store) (filtered : ref)
    (t : list row) :
  h !! filtered = Some (Frame t) ->
  repeatable country_chart_stmt h filtered (CountryCounts (country_counts t)) /\
  repeatable (heat_df_stmt origin) h filtered (HeatCounts (heat_df t)) /\
  match df_ts origin t with
  | OK c => repeatable (df_ts_stmt origin) h filtered (HourCounts c)
  | Raise e =>
      forall h', (forall r o, h !! r = Some o -> h' !! r = Some o) ->
                 df_ts_stmt origin filtered h' = Raise e
  end.
Proof.
  intros H. split; [|split]; unfold repeatable.
  - run_twice country_chart_stmt_run H.
    + do 2 apply lookup_old. apply lookup_new.
    + apply lookup_new.
    + intros r o Hr. split; repeat apply lookup_old; exact Hr.
  - run_twice (heat_df_stmt_run origin) H.
    + do 3 apply lookup_old. apply lookup_new.
    + apply lookup_new.
    + intros r o Hr. split; repeat apply lookup_old; exact Hr.
  - destruct (df_ts origin t) as [c|e] eqn:Hc.
    + pose proof (df_ts_stmt_run origin _ _ _ c H Hc) as R1.
      assert (H1 : ((((h ++ [Frame t]) ++ [Resampler (length h)])
                       ++ [HourCounts c]) ++ [HourCounts c]) !! filtered
                   = Some (Frame t))
        by (repeat apply lookup_old; exact H).
      pose proof (df_ts_stmt_run origin _ _ _ c H1 Hc) as R2.
      eexists _, _, _, _. split; [exact R1|]. split; [exact R2|].
      split; [|split].
      * do 4 apply lookup_old. apply lookup_new.
      * apply lookup_new.
      * intros r o Hr. split; repeat apply lookup_old; exact Hr.
    + intros h' Hh'. apply (df_ts_stmt_raise origin h' filtered t e); auto.
Qed.

Lemma aggregations_pure_witness :
  let t := [aftershock_row; tokyo_row] in
  let h := [Frame [tokyo_row; chile_row]; Frame t] in
  repeatable country_chart_stmt h 1%nat (CountryCounts (country_counts t)) /\
  repeatable (heat_df_stmt sample_origin) h 1%nat (HeatCounts (heat_df t)) /\
  repeatable (df_ts_stmt sample_origin) h 1%nat
    (HourCounts [ (1735700400 * 1000000000, 1%nat);
                  (1735704000 * 1000000000, 0%nat);
                  (1735707600 * 1000000000, 1%nat) ]).
Proof.
  apply (aggregations_pure sample_origin
           [Frame [tokyo_row; chile_row]; Frame [aftershock_row; tokyo_row]]
           1%nat [aftershock_row; tokyo_row]).
  reflexivity.
Defined.

(** ** The cache *)

Section CacheLaws.

Variable America_Chicago : tzinfo.
Variable astype : list pyval -> scalar -> scalar.

Lemma cached_load_data_hit (a : access) (c : cache) (e : entry) :
  slot c = Some e -> now a < expires e ->
  cached_load_data America_Chicago astype a c = (OK (cached e), c).
Proof.
  intros Hs Hlt. unfold cached_load_data. rewrite Hs.
  now rewrite (proj2 (Z.ltb_lt _ _) Hlt).
Qed.

Lemma cached_load_data_expired (a : access) (c : cache) (e : entry) :
  slot c = Some e -> expires e <= now a ->
  cached_load_data America_Chicago astype a c = fetch America_Chicago astype a c.
Proof.
  intros Hs Hle. unfold cached_load_data. rewrite Hs.
  now rewrite (proj2 (Z.ltb_ge _ _) Hle).
Qed.

(** C9: the time to live is 180 seconds. From an empty cache, the first
    access fetches and builds the table; a second access less than 180
    seconds after the table was stored returns the same table without a
    fetch, so the two accesses make one fetch; an access 180 seconds or
    more after the table was stored makes one new fetch, returns what
    [load_data] gives on the new response and, when that is a table, stores
    it with a fresh expiry. *)
Theorem cache_ttl (a1 a2 a3 : access) (df : list row) :
  load_data America_Chicago astype (feed a1) = OK df ->
  now a2 < stored_at a1 + 180 * 1000000000 ->
  stored_at a1 + 180 * 1000000000 <= now a3 ->
  let c1 := snd (cached_load_data America_Chicago astype a1 empty_cache) in
  let c2 := snd (cached_load_data America_Chicago astype a2 c1) in
  let c3 := snd (cached_load_data America_Chicago astype a3 c2) in
  fst (cached_load_data America_Chicago astype a1 empty_cache) = OK df /\
  fetches c1 = 1%nat /\
  fst (cached_load_data America_Chicago astype a2 c1) = OK df /\
  fetches c2 = 1%nat /\
  c2 = run America_Chicago astype [a1; a2] empty_cache /\
  fst (cached_load_data America_Chicago astype a3 c2)
  = load_data America_Chicago astype (feed a3) /\
  fetches c3 = 2%nat /\
  c3 = run America_Chicago astype [a1; a2; a3] empty_cache /\
  (forall df', load_data America_Chicago astype (feed a3) = OK df' ->
     slot c3 = Some {| expires := stored_at a3 + 180 * 1000000000;
                       cached := df' |}).
Proof.
  intros Hload Hin Hout c1 c2 c3.
  assert (E1 : cached_load_data America_Chicago astype a1 empty_cache
    = (OK df, {| slot := Some {| expires := stored_at a1 + TTL; cached := df |};
                 fetches := 1 |})).
  { unfold cached_load_data, fetch. simpl. now rewrite Hload. }
  assert (Ec1 : c1 = {| slot := Some {| expires := stored_at a1 + TTL;
                                        cached := df |};
                        fetches := 1 |}) by (unfold c1; now rewrite E1).
  assert (E2 : cached_load_data America_Chicago astype a2 c1 = (OK df, c1)).
  { rewrite Ec1.
    apply (cached_load_data_hit _ _
             {| expires := stored_at a1 + TTL; cached := df |});
      [reflexivity|exact Hin]. }
  assert (Ec2 : c2 = c1) by (unfold c2; now rewrite E2).
  assert (E3 : cached_load_data America_Chicago astype a3 c2
               = fetch America_Chicago astype a3 c2).
  { rewrite Ec2, Ec1.
    apply (cached_load_data_expired _ _
             {| expires := stored_at a1 + TTL; cached := df |});
      [reflexivity|exact Hout]. }
  rewrite E1, E2. simpl.
  repeat split.
  - now rewrite Ec1.
  - now rewrite Ec2, Ec1.
  - rewrite E3. unfold fetch.
    now destruct (load_data America_Chicago astype (feed a3)).
  - unfold c3. rewrite E3, Ec2, Ec1. unfold fetch.
    now destruct (load_data America_Chicago astype (feed a3)).
  - intros df' Hdf'. unfold c3. rewrite E3. unfold fetch.
    now rewrite Hdf'.
Qed.

End CacheLaws.

Lemma cache_ttl_witness :
  let a1 := at_seconds 1000 [tokyo; no_magnitude; chile] in
  let a2 := at_seconds 1180 [aftershock] in
  let a3 := at_seconds 1181 [aftershock] in
  let c1 :=
    snd (cached_load_data chicago_2024_2026 sample_astype a1 empty_cache) in
  let c2 := snd (cached_load_data chicago_2024_2026 sample_astype a2 c1) in
  let c3 := snd (cached_load_data chicago_2024_2026 sample_astype a3 c2) in
  fst (cached_load_data chicago_2024_2026 sample_astype a1 empty_cache)
  = OK [tokyo_row; chile_row] /\
  fetches c1 = 1%nat /\
  fst (cached_load_data chicago_2024_2026 sample_astype a2 c1)
  = OK [tokyo_row; chile_row] /\
  fetches c2 = 1%nat /\
  c2 = run chicago_2024_2026 sample_astype [a1; a2] empty_cache /\
  fst (cached_load_data chicago_2024_2026 sample_astype a3 c2)
  = load_data chicago_2024_2026 sample_astype (feed a3) /\
  fetches c3 = 2%nat /\
  c3 = run chicago_2024_2026 sample_astype [a1; a2; a3] empty_cache /\
  (forall df', load_data chicago_2024_2026 sample_astype (feed a3) = OK df' ->
     slot c3 = Some {| expires := stored_at a3 + 180 * 1000000000;
                       cached := df' |}).
Proof.
  apply (cache_ttl chicago_2024_2026 sample_astype
           (at_seconds 1000 [tokyo; no_magnitude; chile])
           (at_seconds 1180 [aftershock])
           (at_seconds 1181 [aftershock])
           [tokyo_row; chile_row]).
  - reflexivity.
  - simpl. lia.
  - simpl. lia.
Defined.

(** * Further properties *)

(** ** The country search without backtracking *)

Lemma greedy_none {R} (p : N -> bool) (s : pystr)
    (k : pystr -> pystr -> option R) :
  (forall taken rest, s = taken ++ rest -> forallb p taken = true ->
                      k taken rest = None) ->
  greedy p s k = None.
Proof.
  revert k. induction s as [|c s IH]; intros k Hk; simpl.
  - apply (Hk [] []); reflexivity.
  - destruct (p c) eqn:Hc.
    + rewrite IH.
      * apply (Hk [] (c :: s)); reflexivity.
      * intros taken rest -> Hp. apply (Hk (c :: taken) rest); [reflexivity|].
        simpl. now rewrite Hc.
    + apply (Hk [] (c :: s)); reflexivity.
Qed.

Lemma group_of_split (t r2 : pystr) :
  forallb is_dot t = true -> at_dollar r2 = true ->
  group_of (t ++ r2) = Some t.
Proof.
  intros Ht Hr. induction t as [|c t IH]; simpl in *.
  - destruct r2 as [|c [|c' r2]]; [reflexivity| |discriminate].
    apply N.eqb_eq in Hr as ->. reflexivity.
  - apply andb_prop in Ht as [Hc Ht]. unfold is_dot in Hc.
    apply negb_true_iff in Hc. change ((c :: t) ++ r2) with (c :: (t ++ r2)).
    unfold group_of; fold group_of. rewrite Hc. now rewrite IH.
Qed.

Lemma group_of_Some (r g : pystr) :
  group_of r = Some g ->
  forallb is_dot g = true /\ (r = g \/ r = g ++ [LF]).
Proof.
  revert g. induction r as [|c r IH]; intros g H; simpl in H.
  - injection H as <-. auto.
  - destruct (c =? LF)%N eqn:Hc.
    + destruct r; [|discriminate]. injection H as <-.
      apply N.eqb_eq in Hc as ->. auto.
    + destruct (group_of r) as [g'|]; [|discriminate]. injection H as <-.
      destruct (IH g' eq_refl) as [Hg [->| ->]]; simpl; unfold is_dot at 1;
        rewrite Hc; simpl; auto.
Qed.

Lemma group_of_tail (c : N) (r g : pystr) :
  group_of (c :: r) = Some g -> exists g', group_of r = Some g'.
Proof.
  simpl. destruct (c =? LF)%N.
  - destruct r; [eauto|discriminate].
  - destruct (group_of r); [eauto|discriminate].
Qed.

Lemma group_of_suffix (x y g : pystr) :
  group_of (x ++ y) = Some g -> exists g', group_of y = Some g'.
Proof.
  revert g. induction x as [|c x IH]; intros g H; [eauto|].
  destruct (group_of_tail _ _ _ H) as [g' Hg']. eauto.
Qed.

Lemma lstrip_app (ws x : pystr) :
  forallb is_space ws = true -> lstrip (ws ++ x) = lstrip x.
Proof.
  induction ws as [|c ws IH]; intros H; [reflexivity|].
  simpl in *. apply andb_prop in H as [Hc H]. rewrite Hc. auto.
Qed.

Lemma dot_star_dollar (r : pystr) :
  greedy is_dot r (fun taken rest => if at_dollar rest then Some taken else None)
  = group_of r.
Proof.
  destruct (group_of r) as [g|] eqn:E.
  - destruct (group_of_Some _ _ E) as [Hg Hr].
    apply (greedy_longest is_dot r _ g (if decide (r = g) then [] else [LF])).
    + destruct Hr as [->| ->].
      * rewrite decide_True by reflexivity. now rewrite app_nil_r.
      * rewrite decide_False; [reflexivity|].
        intros H. apply (f_equal length) in H. rewrite length_app in H.
        simpl in H. lia.
    + exact Hg.
    + destruct (decide (r = g)); [exact I|reflexivity].
    + destruct (decide (r = g)); reflexivity.
  - apply greedy_none. intros taken rest -> Hp.
    destruct (at_dollar rest) eqn:Hd; [|reflexivity].
    rewrite group_of_split in E by assumption. discriminate.
Qed.

Lemma match_here_comma (rest : pystr) :
  match_here country_pattern (COMMA :: rest) [] = group_of (lstrip rest).
Proof.
  simpl. destruct (lstrip_split rest) as (ws & Hs & Hws & Hstop).
  destruct (group_of (lstrip rest)) as [g|] eqn:E.
  - eapply greedy_longest; eauto. now rewrite dot_star_dollar.
  - apply greedy_none. intros taken r1 Hr Hp. rewrite dot_star_dollar.
    destruct (group_of r1) as [g|] eqn:E1; [|reflexivity].
    assert (Hl : lstrip rest = lstrip r1) by (rewrite Hr; now apply lstrip_app).
    destruct (lstrip_split r1) as (ws1 & Hs1 & _ & _).
    rewrite Hs1 in E1. destruct (group_of_suffix _ _ _ E1) as [g' Hg'].
    congruence.
Qed.

Lemma match_here_other (c : N) (s : pystr) :
  (c =? COMMA)%N = false -> match_here country_pattern (c :: s) [] = None.
Proof.
  intros H. unfold country_pattern. unfold match_here at 1. now rewrite H.
Qed.

Lemma re_search_cons (c : N) (s : pystr) :
  re_search country_pattern (c :: s)
  = if (c =? COMMA)%N then
      match group_of (lstrip s) with
      | Some g => Some g
      | None => re_search country_pattern s
      end
    else re_search country_pattern s.
Proof.
  unfold re_search at 1; fold re_search.
  destruct (c =? COMMA)%N eqn:Hc.
  - apply N.eqb_eq in Hc as ->. rewrite match_here_comma.
    now destruct (group_of (lstrip s)).
  - now rewrite match_here_other.
Qed.

(** X1: on every string, the backtracking search for the pattern finds what
    one pass from the left finds: group 1 at the first comma whose following
    text, leading whitespace dropped, has no line feed before its last
    character. Giving back characters of the whitespace run or of the group
    never yields a match that the longest runs do not yield. *)
Theorem re_search_scan (s : pystr) :
  re_search country_pattern s = scan s.
Proof.
  induction s as [|c s IH]; [reflexivity|].
  rewrite re_search_cons. simpl.
  destruct (c =? COMMA)%N; [|exact IH].
  destruct (group_of (lstrip s)); [reflexivity|exact IH].
Qed.

Lemma re_search_Some (s g : pystr) :
  re_search country_pattern s = Some g ->
  exists pre rest, s = pre ++ COMMA :: rest /\ group_of (lstrip rest) = Some g.
Proof.
  induction s as [|c s IH]; [discriminate|].
  rewrite re_search_cons. destruct (c =? COMMA)%N eqn:Hc.
  - apply N.eqb_eq in Hc as ->.
    destruct (group_of (lstrip s)) as [g'|] eqn:E.
    + intros [= <-]. exists [], s. auto.
    + intros H. destruct (IH H) as (pre & rest & -> & Hg).
      exists (COMMA :: pre), rest. auto.
  - intros H. destruct (IH H) as (pre & rest & -> & Hg).
    exists (c :: pre), rest. auto.
Qed.

Lemma group_of_None (x : pystr) :
  group_of x = None -> exists a b, x = a ++ LF :: b /\ b <> [].
Proof.
  induction x as [|c x IH]; [discriminate|]. simpl.
  destruct (c =? LF)%N eqn:Hc.
  - apply N.eqb_eq in Hc as ->. destruct x; [discriminate|].
    intros _. exists [], (n :: x). split; [reflexivity|discriminate].
  - destruct (group_of x); [discriminate|]. intros _.
    destruct (IH eq_refl) as (a & b & -> & Hb).
    exists (c :: a), b. auto.
Qed.

Lemma group_of_inner_LF (a b : pystr) :
  b <> [] -> group_of (a ++ LF :: b) = None.
Proof.
  intros Hb. destruct (group_of (a ++ LF :: b)) as [g|] eqn:E; [|reflexivity].
  destruct (group_of_suffix _ _ _ E) as [g' Hg']. simpl in Hg'.
  destruct b; [contradiction|discriminate].
Qed.

Lemma last_comma (s : pystr) :
  has_comma s = true ->
  exists pre last, s = pre ++ COMMA :: last /\ has_comma last = false.
Proof.
  induction s as [|c s IH]; [discriminate|]. simpl.
  destruct (has_comma s) eqn:Hs.
  - intros _. destruct (IH eq_refl) as (pre & last & -> & Hl).
    exists (c :: pre), last. auto.
  - rewrite orb_false_r. intros Hc. apply N.eqb_eq in Hc as ->.
    exists [], s. auto.
Qed.

Lemma re_search_no_comma (s : pystr) :
  has_comma s = false -> re_search country_pattern s = None.
Proof.
  induction s as [|c s IH]; [reflexivity|].
  intros H. simpl in H. apply orb_false_elim in H as [Hc Hs].
  rewrite re_search_cons, Hc. auto.
Qed.

Lemma lstrip_keeps_comma (p l : pystr) :
  exists x, lstrip (p ++ COMMA :: l) = x ++ COMMA :: l.
Proof.
  induction p as [|c p [x IH]]; simpl.
  - exists []. reflexivity.
  - destruct (is_space c); [eauto|]. exists (c :: p). reflexivity.
Qed.

Lemma group_of_lstrip (x g : pystr) :
  group_of x = Some g -> exists g', group_of (lstrip x) = Some g'.
Proof.
  intros H. destruct (lstrip_split x) as (ws & Hs & _ & _).
  rewrite Hs in H. eapply group_of_suffix; eauto.
Qed.

Lemma re_search_last_comma (pre last : pystr) :
  has_comma last = false ->
  re_search country_pattern (pre ++ COMMA :: last)
  = None <-> group_of (lstrip last) = None.
Proof.
  intros Hl. split.
  - induction pre as [|c pre IH]; simpl app; rewrite re_search_cons.
    + rewrite N.eqb_refl. now destruct (group_of (lstrip last)).
    + destruct (c =? COMMA)%N; [|exact IH].
      destruct (group_of (lstrip (pre ++ COMMA :: last))); [discriminate|].
      exact IH.
  - intros Hg. induction pre as [|c pre IH]; simpl app; rewrite re_search_cons.
    + rewrite N.eqb_refl, Hg. now apply re_search_no_comma.
    + destruct (c =? COMMA)%N; [|exact IH].
      destruct (group_of (lstrip (pre ++ COMMA :: last))) as [g|] eqn:E;
        [|exact IH].
      exfalso. destruct (lstrip_keeps_comma pre last) as [x Hx].
      rewrite Hx in E. destruct (group_of_suffix _ _ _ E) as [g1 Hg1].
      destruct (group_of_tail _ _ _ Hg1) as [g2 Hg2].
      destruct (group_of_lstrip _ _ Hg2) as [g3 Hg3]. congruence.
Qed.

(** X2: when the place has a comma and the country is derived, the country
    is the end of the place: it follows a comma and a run of whitespace,
    only a final line feed may come after it, it contains no line feed and
    does not start with whitespace. *)
Theorem country_of_shape (s g : pystr) :
  has_comma s = true ->
  country_of (PyStr s) = OK g ->
  exists pre ws tail,
    s = pre ++ COMMA :: ws ++ g ++ tail /\
    forallb is_space ws = true /\
    (tail = [] \/ tail = [LF]) /\
    Forall (fun c => c <> LF) g /\
    match g with c :: _ => is_space c = false | [] => True end.
Proof.
  intros Hc. rewrite country_of_PyStr, Hc.
  destruct (re_search country_pattern s) as [g0|] eqn:E; [|discriminate].
  intros [= ->]. destruct (re_search_Some _ _ E) as (pre & rest & -> & Hg).
  destruct (lstrip_split rest) as (ws & Hs & Hws & Hstop).
  destruct (group_of_Some _ _ Hg) as [Hdot Hr].
  exists pre, ws, (if decide (lstrip rest = g) then [] else [LF]).
  repeat split.
  - rewrite Hs at 1. do 3 f_equal.
    destruct Hr as [Hr|Hr]; rewrite Hr at 1.
    + rewrite decide_True by assumption. now rewrite app_nil_r.
    + rewrite decide_False; [reflexivity|]. rewrite Hr.
      intros H. apply (f_equal length) in H. rewrite length_app in H.
      simpl in H. lia.
  - exact Hws.
  - destruct (decide (lstrip rest = g)); auto.
  - clear -Hdot. induction g as [|c g IH]; constructor.
    + simpl in Hdot. apply andb_prop in Hdot as [Hc _]. unfold is_dot in Hc.
      apply negb_true_iff, N.eqb_neq in Hc. exact Hc.
    + apply IH. simpl in Hdot. now apply andb_prop in Hdot as [_ ?].
  - destruct g as [|c g]; [exact I|].
    destruct Hr as [Hr|Hr]; rewrite Hr in Hstop; exact Hstop.
Qed.

Lemma is_comma_str_spec (v : pyval) :
  is_comma_str v = true <-> v = PyStr [COMMA].
Proof.
  destruct v; simpl; try (split; [discriminate|intros [=]]).
  unfold pystr_eqb. rewrite bool_decide_eq_true. split; [now intros ->|].
  now intros [= ->].
Qed.

Lemma comma_element (elements : list pyval) :
  existsb is_comma_str elements = true <-> PyStr [COMMA] ∈ elements.
Proof.
  rewrite existsb_exists. split.
  - intros (v & Hv & Hc). apply is_comma_str_spec in Hc as ->.
    now apply list_elem_of_In.
  - intros H. exists (PyStr [COMMA]). split; [now apply list_elem_of_In|].
    now apply is_comma_str_spec.
Qed.

Lemma comma_key (items : list (pystr * pyval)) :
  existsb (fun kv => pystr_eqb (fst kv) [COMMA]) items = true
  <-> [COMMA] ∈ map fst items.
Proof.
  rewrite existsb_exists. split.
  - intros (kv & Hkv & Hc). unfold pystr_eqb in Hc.
    apply bool_decide_eq_true in Hc as <-.
    apply list_elem_of_In, in_map. exact Hkv.
  - intros H. apply list_elem_of_In, in_map_iff in H as (kv & Hk & Hkv).
    exists kv. split; [assumption|]. unfold pystr_eqb.
    now apply bool_decide_eq_true.
Qed.

(** X3: the outcomes of the country lambda on any value of the response. It
    raises TypeError exactly on a value that is None, a bool, an int or a
    float, on a list with the element "," and on a dict with the key ",";
    on every other list and dict it returns Unknown. It raises
    AttributeError exactly on a string whose text after its last comma,
    leading whitespace dropped, has a line feed before its last character.
    It raises nothing else. *)
Theorem country_of_failures (x : pyval) :
  (country_of x = Raise TypeError <->
   match x with
   | PyStr _ => False
   | PyList elements => PyStr [COMMA] ∈ elements
   | PyDict items => [COMMA] ∈ map fst items
   | _ => True
   end) /\
  (country_of x = Raise AttributeError <->
   exists pre last a b,
     x = PyStr (pre ++ COMMA :: last) /\ has_comma last = false /\
     lstrip last = a ++ LF :: b /\ b <> []) /\
  (match x with
   | PyList elements =>
       PyStr [COMMA] ∉ elements -> country_of x = OK (py "Unknown")
   | PyDict items =>
       [COMMA] ∉ map fst items -> country_of x = OK (py "Unknown")
   | _ => True
   end) /\
  (forall e, country_of x = Raise e -> e = TypeError \/ e = AttributeError).
Proof.
  split; [|split; [|split]].
  - destruct x as [| | | |s|elements|items]; try (split; [auto|reflexivity]).
    + rewrite country_of_PyStr. split; [|contradiction].
      destruct (has_comma s); [|discriminate].
      destruct (re_search country_pattern s); discriminate.
    + rewrite <- comma_element. unfold country_of. simpl.
      destruct (existsb is_comma_str elements); split;
        try reflexivity; discriminate.
    + rewrite <- comma_key. unfold country_of. simpl.
      destruct (existsb _ items); split; try reflexivity; discriminate.
  - split.
    + intros H. destruct x as [| | | |s|elements|items]; try discriminate.
      * rewrite country_of_PyStr in H.
        destruct (has_comma s) eqn:Hc; [|discriminate].
        destruct (re_search country_pattern s) eqn:E; [discriminate|].
        destruct (last_comma s Hc) as (pre & last & -> & Hl).
        apply re_search_last_comma in E; [|exact Hl].
        destruct (group_of_None _ E) as (a & b & Ha & Hb).
        exists pre, last, a, b. auto.
      * unfold country_of in H. simpl in H.
        destruct (existsb is_comma_str elements); discriminate.
      * unfold country_of in H. simpl in H.
        destruct (existsb _ items); discriminate.
    + intros (pre & last & a & b & -> & Hl & Ha & Hb).
      rewrite country_of_PyStr.
      assert (Hc : has_comma (pre ++ COMMA :: last) = true).
      { unfold has_comma. rewrite existsb_app. simpl. apply orb_true_r. }
      rewrite Hc.
      rewrite (proj2 (re_search_last_comma pre last Hl)); [reflexivity|].
      rewrite Ha. now apply group_of_inner_LF.
  - destruct x as [| | | |s|elements|items]; try exact I.
    + rewrite <- comma_element. unfold country_of. simpl.
      now destruct (existsb is_comma_str elements).
    + rewrite <- comma_key. unfold country_of. simpl.
      now destruct (existsb _ items).
  - intros e. destruct x as [| | | |s|elements|items];
      try (intros [= <-]; now left).
    + rewrite country_of_PyStr. destruct (has_comma s); [|discriminate].
      destruct (re_search country_pattern s); [discriminate|].
      intros [= <-]. now right.
    + unfold country_of. simpl.
      destruct (existsb is_comma_str elements); [|discriminate].
      intros [= <-]. now left.
    + unfold country_of. simpl.
      destruct (existsb _ items); [|discriminate].
      intros [= <-]. now left.
Qed.

(** On the place of [listed_place], a list without the element ",", the
    lambda returns Unknown; with that element it raises. *)
Example country_of_list :
  country_of (place listed_place) = OK (py "Unknown") /\
  country_of (PyList [PyStr (py ","); PyStr (py "Japan")]) = Raise TypeError /\
  country_of (PyDict []) = OK (py "Unknown") /\
  country_of (PyBool true) = Raise TypeError.
Proof. repeat split. Qed.

(** The table of [listed_place] is built, with Unknown as country. *)
Example load_data_listed_place :
  exists r : row,
    load_data chicago_2024_2026 sample_astype [listed_place] = OK [r] /\
    Place r = PyList [PyStr (py "Tokyo"); PyStr (py "Japan")] /\
    Country r = py "Unknown".
Proof. eexists. repeat split. Qed.

(** ** The table [load_data] builds *)

Lemma apply_OK_Forall2 {A B} (f : A -> result B) (l : list A) (l' : list B) :
  apply f l = OK l' <-> Forall2 (fun a b => f a = OK b) l l'.
Proof.
  revert l'. induction l as [|a l IH]; intros l'; simpl.
  - split.
    + intros [= <-]. constructor.
    + intros H. inversion H. reflexivity.
  - split.
    + destruct (f a) as [b|] eqn:Hf; simpl; [|discriminate].
      destruct (apply f l) as [bs|] eqn:Hl; simpl; [|discriminate].
      intros [= <-]. constructor; [exact Hf|]. now apply IH.
    + intros H. inversion H as [|? b ? bs Hf Hrest]; subst.
      rewrite Hf. simpl. apply IH in Hrest. rewrite Hrest. reflexivity.
Qed.

Lemma apply_Raise {A B} (f : A -> result B) (l : list A) (e : exn) :
  apply f l = Raise e <->
  exists l1 a l2, l = l1 ++ a :: l2 /\ f a = Raise e /\
                  forall x, x ∈ l1 -> exists b, f x = OK b.
Proof.
  induction l as [|a l IH]; simpl.
  - split; [discriminate|]. intros (l1 & a & l2 & H & _). now destruct l1.
  - destruct (f a) as [b|e0] eqn:Hf; simpl.
    + destruct (apply f l) as [bs|e1] eqn:Hl; simpl.
      * split; [discriminate|].
        intros (l1 & a' & l2 & H & Hfa & Hok).
        destruct l1 as [|x l1]; simpl in H; injection H as -> ->.
        { congruence. }
        assert (E : Raise (A:=list B) e = OK bs); [|discriminate].
        rewrite <- (proj2 IH); [reflexivity|].
        exists l1, a', l2. repeat split; auto.
        intros y Hy. apply Hok. now right.
      * split.
        -- intros [= ->]. destruct (proj1 IH eq_refl) as (l1 & a' & l2 & -> & Hfa & Hok).
           exists (a :: l1), a', l2. repeat split; auto.
           intros x Hx. apply elem_of_cons in Hx as [->|Hx]; eauto.
        -- intros (l1 & a' & l2 & H & Hfa & Hok).
           destruct l1 as [|x l1]; simpl in H; injection H as -> ->.
           { congruence. }
           f_equal. assert (E : Raise (A:=list B) e1 = Raise e); [|congruence].
           apply IH. exists l1, a', l2. repeat split; auto.
           intros y Hy. apply Hok. now right.
    + split.
      * intros [= ->]. exists [], a, l. repeat split; auto.
        intros x Hx. inversion Hx.
      * intros (l1 & a' & l2 & H & Hfa & Hok).
        destruct l1 as [|x l1]; simpl in H; injection H as -> ->.
        { congruence. }
        destruct (Hok x (list_elem_of_here _ _)) as [b Hb]. congruence.
Qed.

Lemma apply_map {A B C} (f : B -> result C) (g : A -> B) (l : list A) :
  apply f (map g l) = apply (fun a => f (g a)) l.
Proof.
  induction l as [|a l IH]; [reflexivity|]. simpl. now rewrite IH.
Qed.

Lemma Forall2_map_l {A B C} (f : A -> B) (P : B -> C -> Prop)
    (l : list A) (k : list C) :
  Forall2 P (map f l) k <-> Forall2 (fun a c => P (f a) c) l k.
Proof.
  revert k. induction l as [|a l IH]; intros k; simpl.
  - split; intros H; inversion H; constructor.
  - split; intros H; inversion H; subst; constructor; auto; now apply IH.
Qed.

Lemma cell_kept (astype : list pyval -> scalar -> scalar)
    (col : list pyval) (v : pyval) :
  kept v (cell astype col v).
Proof.
  unfold kept, cell, is_scalar. destruct v; simpl; try reflexivity;
    match goal with |- context [astype ?c ?x] => now destruct (astype c x) end.
Qed.

Lemma timely_untimely (data : list feature) :
  Forall timely data -> ~ Exists untimely data.
Proof.
  intros HF HE. apply Exists_exists in HE as (d & Hd & Hu & Hb).
  rewrite Forall_forall in HF. specialize (HF d Hd Hu). congruence.
Qed.

Section Table.

Variable America_Chicago : tzinfo.
Variable astype : list pyval -> scalar -> scalar.

Lemma enrich_OK (r : record) (w : row) :
  enrich America_Chicago r = OK w <->
  base w = r /\ country_of (Place r) = OK (Country w) /\
  Time_Central w = tz_convert America_Chicago (tz_localize_UTC (Time_UTC r)) /\
  Hour w = dt_hour (Time_Central w) /\
  Date w = dt_date (Time_Central w) /\
  Year w = dt_year (Time_Central w).
Proof.
  unfold enrich. split.
  - destruct (country_of (Place r)) as [c|]; simpl; [|discriminate].
    intros [= <-]. simpl. repeat split.
  - destruct w as [b t h d y c]. simpl.
    intros (-> & -> & -> & -> & -> & ->). reflexivity.
Qed.

Lemma enrich_Raise (r : record) (e : exn) :
  enrich America_Chicago r = Raise e <-> country_of (Place r) = Raise e.
Proof.
  unfold enrich. destruct (country_of (Place r)); simpl; split; congruence.
Qed.

(** The row of the feature [d] in the frame of the records [rs]. *)
Lemma enrich_stored_OK (rs : list record) (d : feature) (w : row) :
  enrich America_Chicago (stored astype rs (record_of d)) = OK w ->
  base w = stored astype rs (record_of d) /\
  holds w d /\
  country_of (place d) = OK (Country w) /\
  country_of (Place w) = OK (Country w).
Proof.
  intros H. apply enrich_OK in H as (Hb & Hc & _).
  split; [exact Hb|]. unfold holds. rewrite Hb. split; [|split].
  - cbn [stored record_of Time_UTC Place Magnitude Depth_km
         Longitude Latitude].
    split; [reflexivity|]. repeat split; apply cell_kept.
  - cbn [stored record_of Place] in Hc. now rewrite country_of_cell in Hc.
  - exact Hc.
Qed.

Lemma enrich_stored_Raise (rs : list record) (d : feature) (e : exn) :
  enrich America_Chicago (stored astype rs (record_of d)) = Raise e
  <-> country_of (place d) = Raise e.
Proof.
  rewrite enrich_Raise. cbn [stored record_of Place].
  now rewrite country_of_cell.
Qed.

(** [load_data] when every time is in bounds. *)
Lemma load_data_timely (data : list feature) :
  Forall timely data ->
  load_data America_Chicago astype data =
  match List.filter usable data with
  | [] => Raise (KeyError "Time_UTC")
  | _ :: _ =>
      apply (fun d => enrich America_Chicago
                        (stored astype (normalizer_spec data) (record_of d)))
            (List.filter usable data)
  end.
Proof.
  intros H. rewrite load_data_rows, load_records_app by assumption.
  cbn [bind app]. unfold normalizer_spec at 1.
  destruct (List.filter usable data) as [|d ds] eqn:E; [reflexivity|].
  cbn [map]. unfold normalizer_spec at 2. rewrite E.
  now rewrite !apply_map.
Qed.



End Table.

(** ** The filter and the options of the sidebar *)

Lemma unique_fold_elem {A} `{EqDecision A} (l seen : list A) (x : A) :
  x ∈ fold_left (fun seen x => if bool_decide (x ∈ seen) then seen
                               else seen ++ [x]) l seen
  <-> x ∈ seen \/ x ∈ l.
Proof.
  revert seen. induction l as [|a l IH]; intros seen; simpl.
  - split; [auto|]. intros [?|H']; [assumption|inversion H'].
  - rewrite IH. case_bool_decide as Ha.
    + rewrite elem_of_cons. split; [tauto|]. intros [?|[->|?]]; auto.
    + rewrite elem_of_app, list_elem_of_singleton, elem_of_cons. tauto.
Qed.

Lemma unique_fold_NoDup {A} `{EqDecision A} (l seen : list A) :
  NoDup seen ->
  NoDup (fold_left (fun seen x => if bool_decide (x ∈ seen) then seen
                                  else seen ++ [x]) l seen).
Proof.
  revert seen. induction l as [|a l IH]; intros seen Hs; simpl; [exact Hs|].
  apply IH. case_bool_decide as Ha; [exact Hs|].
  apply NoDup_app. split; [exact Hs|]. split.
  - intros x Hx Hx'. apply list_elem_of_singleton in Hx' as ->. contradiction.
  - apply NoDup_singleton.
Qed.

Lemma unique_elem {A} `{EqDecision A} (l : list A) (x : A) :
  x ∈ unique l <-> x ∈ l.
Proof.
  unfold unique. rewrite unique_fold_elem. split; [|auto].
  intros [H'|?]; [inversion H'|assumption].
Qed.

Lemma unique_NoDup {A} `{EqDecision A} (l : list A) : NoDup (unique l).
Proof. apply unique_fold_NoDup. constructor. Qed.

Lemma insort_perm {A} (leb : A -> A -> bool) (x : A) (l : list A) :
  insort leb x l ≡ₚ x :: l.
Proof.
  induction l as [|y l IH]; simpl; [reflexivity|].
  destruct (leb x y); [reflexivity|]. rewrite IH. apply Permutation_swap.
Qed.

Lemma sorted_perm {A} (leb : A -> A -> bool) (l : list A) :
  sorted leb l ≡ₚ l.
Proof.
  induction l as [|x l IH]; simpl; [reflexivity|].
  rewrite insort_perm. now rewrite IH.
Qed.

Lemma insort_sorted {A} (leb : A -> A -> bool) (x : A) (l : list A) :
  (forall a b, leb a b = true \/ leb b a = true) ->
  (forall a b c, leb a b = true -> leb b c = true -> leb a c = true) ->
  StronglySorted (fun a b => leb a b = true) l ->
  StronglySorted (fun a b => leb a b = true) (insort leb x l).
Proof.
  intros Htot Htr. induction 1 as [|y l Hs IH Hall]; simpl.
  - repeat constructor.
  - destruct (leb x y) eqn:Hxy.
    + constructor; [now constructor|]. constructor; [exact Hxy|].
      eapply Forall_impl; [exact Hall|]. intros z Hz. simpl in Hz. eauto.
    + constructor; [exact IH|].
      rewrite insort_perm. constructor; [|exact Hall].
      destruct (Htot x y); congruence.
Qed.

Lemma sorted_sorted {A} (leb : A -> A -> bool) (l : list A) :
  (forall a b, leb a b = true \/ leb b a = true) ->
  (forall a b c, leb a b = true -> leb b c = true -> leb a c = true) ->
  StronglySorted (fun a b => leb a b = true) (sorted leb l).
Proof.
  intros Htot Htr. induction l as [|x l IH]; simpl; [constructor|].
  now apply insort_sorted.
Qed.

Lemma pystr_leb_total (a b : pystr) :
  pystr_leb a b = true \/ pystr_leb b a = true.
Proof.
  revert b. induction a as [|x a IH]; intros [|y b]; simpl; auto.
  destruct (N.ltb_spec x y), (N.ltb_spec y x); auto; lia.
Qed.

Lemma pystr_leb_trans (a b c : pystr) :
  pystr_leb a b = true -> pystr_leb b c = true -> pystr_leb a c = true.
Proof.
  revert b c. induction a as [|x a IH]; intros [|y b] [|z c]; simpl; auto;
    try discriminate.
  destruct (N.ltb_spec x y), (N.ltb_spec y x), (N.ltb_spec y z),
    (N.ltb_spec z y), (N.ltb_spec x z), (N.ltb_spec z x);
    try discriminate; try lia; auto.
  apply IH.
Qed.

Lemma pystr_leb_antisym (a b : pystr) :
  pystr_leb a b = true -> pystr_leb b a = true -> a = b.
Proof.
  revert b. induction a as [|x a IH]; intros [|y b]; simpl; auto;
    try discriminate.
  destruct (N.ltb_spec x y), (N.ltb_spec y x); try discriminate; try lia.
  intros H1 H2. assert (x = y) by lia. subst. f_equal. auto.
Qed.

Lemma filtered_df_as_filter (df : list row) (y : Z) (cs : list pystr) :
  filtered_df df y cs
  = filter (fun r => Year r = y /\ (cs = [] \/ Country r ∈ cs)) df.
Proof.
  unfold filtered_df.
  rewrite (boolean_index_filter (fun r => Year r =? y) (fun r => Year r = y))
    by (intros r; apply Z.eqb_eq).
  destruct cs as [|c cs]; simpl.
  - apply list_filter_iff. intros r. split; [auto|tauto].
  - rewrite (boolean_index_filter (fun r => isin (Country r) (c :: cs))
               (fun r => Country r ∈ c :: cs))
      by (intros r; apply isin_elem).
    rewrite list_filter_filter. apply list_filter_iff.
    intros r. split.
    + intros [? ?]. auto.
    + intros [? [?|?]]; [discriminate|auto].
Qed.

Lemma filter_sublist_impl {A} (P Q : A -> Prop)
    `{!forall x, Decision (P x), !forall x, Decision (Q x)} (l : list A) :
  (forall x, P x -> Q x) -> filter P l `sublist_of` filter Q l.
Proof.
  intros Himp. induction l as [|a l IH]; [constructor|].
  rewrite !filter_cons.
  destruct (decide (P a)), (decide (Q a)); try (exfalso; auto; fail).
  - now constructor.
  - now constructor.
  - exact IH.
Qed.

(** X6: filtering composes. Filtering the filtered table again changes
    nothing; the country restriction applied to the table already
    restricted to the year gives the full filter; the filter of two tables
    put end to end is the two filters end to end; and filtering the result
    for another year leaves nothing. *)
Theorem filtered_df_compose (df : list row) (y : Z) (cs : list pystr) :
  filtered_df (filtered_df df y cs) y cs = filtered_df df y cs /\
  filtered_df (filtered_df df y []) y cs = filtered_df df y cs /\
  (forall df', filtered_df (df ++ df') y cs
               = filtered_df df y cs ++ filtered_df df' y cs) /\
  (forall y', y' <> y -> filtered_df (filtered_df df y cs) y' cs = []).
Proof.
  rewrite !filtered_df_as_filter. repeat split.
  - rewrite list_filter_filter. apply list_filter_iff. tauto.
  - rewrite list_filter_filter. apply list_filter_iff. intros r.
    split; [tauto|]. intros [? ?]. auto.
  - intros df'. rewrite !filtered_df_as_filter. apply filter_app.
  - intros y' Hy. rewrite filtered_df_as_filter, list_filter_filter.
    induction df as [|r df IH]; [reflexivity|].
    rewrite filter_cons_False; [exact IH|]. intros [[? _] [? _]]. congruence.
Qed.

(** X7: the country selection only narrows. A selection keeps a sublist of
    what the empty selection keeps (clearing the selection shows every
    country), a larger selection keeps more, the order in which countries
    were selected does not matter, and every row kept is a row of the table
    with the chosen year. *)
Theorem filtered_df_selection (df : list row) (y : Z) (cs : list pystr) :
  filtered_df df y cs `sublist_of` filtered_df df y [] /\
  (forall cs', cs <> [] -> cs ⊆ cs' ->
               filtered_df df y cs `sublist_of` filtered_df df y cs') /\
  (forall r, r ∈ filtered_df df y cs -> r ∈ df /\ Year r = y) /\
  (forall cs', cs ≡ₚ cs' -> filtered_df df y cs = filtered_df df y cs').
Proof.
  rewrite !filtered_df_as_filter. repeat split.
  - apply filter_sublist_impl. intros r [? _]. auto.
  - intros cs' Hne Hsub. rewrite filtered_df_as_filter.
    apply filter_sublist_impl. intros r [? [?|?]]; [contradiction|].
    split; [assumption|]. right. now apply Hsub.
  - apply list_elem_of_filter in H. tauto.
  - apply list_elem_of_filter in H. tauto.
  - intros cs' Hp. rewrite filtered_df_as_filter. apply list_filter_iff.
    intros r. split; intros [? [E|?]]; split; auto.
    + left. subst cs. now apply Permutation_nil_l in Hp.
    + right. now rewrite <- Hp.
    + left. subst cs'. now apply Permutation_nil_r in Hp.
    + right. now rewrite Hp.
Qed.

Lemma strictly_sorted {A} (R S : A -> A -> Prop) (l : list A) :
  (forall a b, R a b -> a <> b -> S a b) ->
  StronglySorted R l -> NoDup l -> StronglySorted S l.
Proof.
  intros HRS. induction 1 as [|a l Hs IH Hall]; intros Hnd; [constructor|].
  apply NoDup_cons in Hnd as [Ha Hnd]. constructor; [auto|].
  rewrite Forall_forall in *. intros b Hb. apply HRS; [auto|].
  intros ->. contradiction.
Qed.

Lemma filter_iff_in {A} (P Q : A -> Prop)
    `{!forall x, Decision (P x), !forall x, Decision (Q x)} (l : list A) :
  (forall x, x ∈ l -> (P x <-> Q x)) -> filter P l = filter Q l.
Proof.
  induction l as [|a l IH]; intros Hpq; [reflexivity|].
  rewrite !filter_cons.
  assert (Ha : P a <-> Q a) by (apply Hpq; left).
  rewrite IH by (intros x Hx; apply Hpq; now right).
  destruct (decide (P a)), (decide (Q a)); tauto.
Qed.

Lemma elem_of_map_iff {A B} (f : A -> B) (l : list A) (b : B) :
  b ∈ map f l <-> exists a, a ∈ l /\ f a = b.
Proof.
  rewrite list_elem_of_In, in_map_iff. split.
  - intros (a & <- & Ha). exists a. split; [now apply list_elem_of_In|auto].
  - intros (a & Ha & <-). exists a. split; [auto|now apply list_elem_of_In].
Qed.

Lemma sorted_unique_elem {A} `{EqDecision A} (leb : A -> A -> bool)
    (l : list A) (x : A) :
  x ∈ sorted leb (unique l) <-> x ∈ l.
Proof. now rewrite sorted_perm, unique_elem. Qed.

Lemma sorted_unique_NoDup {A} `{EqDecision A} (leb : A -> A -> bool)
    (l : list A) :
  NoDup (sorted leb (unique l)).
Proof. rewrite sorted_perm. apply unique_NoDup. Qed.

(** X8: the year selectbox offers the years that occur in the table and no
    other, each once, the largest first; every year offered gives, with no
    country selected, a filtered table that is not empty; a table that is
    not empty gives at least one option. *)
Theorem year_options_spec (df : list row) :
  (forall y, y ∈ year_options df <-> exists r, r ∈ df /\ Year r = y) /\
  StronglySorted (fun a b => b < a) (year_options df) /\
  (forall y, y ∈ year_options df -> filtered_df df y [] <> []) /\
  (df <> [] -> year_options df <> []).
Proof.
  assert (Hmem : forall y,
    y ∈ year_options df <-> exists r, r ∈ df /\ Year r = y).
  { intros y. unfold year_options.
    now rewrite sorted_unique_elem, elem_of_map_iff. }
  split; [exact Hmem|]. split; [|split].
  - unfold year_options.
    apply (strictly_sorted (fun a b => (b <=? a) = true)).
    + intros a b Hab Hne. apply Z.leb_le in Hab. lia.
    + apply sorted_sorted.
      * intros a b. rewrite !Z.leb_le. lia.
      * intros a b c. rewrite !Z.leb_le. lia.
    + apply sorted_unique_NoDup.
  - intros y Hy. apply Hmem in Hy as (r & Hr & Hyr).
    rewrite filtered_df_as_filter. intros Hnil.
    assert (Hin : r ∈ filter
              (fun r : row => Year r = y /\ (@nil pystr = [] \/ Country r ∈ @nil pystr))
              df)
      by (apply list_elem_of_filter; auto).
    rewrite Hnil in Hin. inversion Hin.
  - intros Hne Hnil. destruct df as [|r df]; [contradiction|].
    assert (Hin : Year r ∈ year_options (r :: df))
      by (apply Hmem; exists r; split; [left|reflexivity]).
    rewrite Hnil in Hin. inversion Hin.
Qed.

(** X9: the country multiselect offers the countries that occur in the table
    and no other, each once, in the order of [str]; selecting all of them
    filters like selecting none. *)
Theorem country_options_spec (df : list row) :
  (forall c, c ∈ country_options df <-> exists r, r ∈ df /\ Country r = c) /\
  StronglySorted (fun a b => pystr_leb a b = true /\ a <> b)
                 (country_options df) /\
  (forall y, filtered_df df y (country_options df) = filtered_df df y []).
Proof.
  assert (Hmem : forall c,
    c ∈ country_options df <-> exists r, r ∈ df /\ Country r = c).
  { intros c. unfold country_options.
    now rewrite sorted_unique_elem, elem_of_map_iff. }
  split; [exact Hmem|]. split.
  - unfold country_options.
    apply (strictly_sorted (fun a b => pystr_leb a b = true)).
    + auto.
    + apply sorted_sorted; [apply pystr_leb_total|apply pystr_leb_trans].
    + apply sorted_unique_NoDup.
  - intros y. rewrite !filtered_df_as_filter. apply filter_iff_in.
    intros r Hr. split; intros [Hy _]; (split; [exact Hy|]).
    + now left.
    + right. apply Hmem. eauto.
Qed.


(** ** The counts of the charts *)

Lemma pystr_eqb_eq (a b : pystr) : pystr_eqb a b = true <-> a = b.
Proof. unfold pystr_eqb. apply bool_decide_eq_true. Qed.

Lemma count_of_tally (c c' : pystr) (counts : list (pystr * nat)) :
  count_of c (tally c' counts)
  = (count_of c counts + if decide (c = c') then 1 else 0)%nat.
Proof.
  induction counts as [|[c0 n] counts IH]; simpl.
  - destruct (decide (c = c')); lia.
  - destruct (pystr_eqb c' c0) eqn:E; simpl.
    + apply pystr_eqb_eq in E. subst c0. destruct (decide (c = c')); lia.
    + rewrite IH. lia.
Qed.

Lemma tally_keys (c : pystr) (counts : list (pystr * nat)) :
  map fst (tally c counts)
  = if bool_decide (c ∈ map fst counts) then map fst counts
    else map fst counts ++ [c].
Proof.
  induction counts as [|[c0 n] counts IH]; simpl; [reflexivity|].
  destruct (pystr_eqb c c0) eqn:E; simpl.
  - apply pystr_eqb_eq in E. subst c0.
    rewrite bool_decide_eq_true_2 by left. reflexivity.
  - rewrite IH. assert (c <> c0).
    { intros ->. rewrite (proj2 (pystr_eqb_eq c0 c0) eq_refl) in E.
      discriminate. }
    repeat case_bool_decide; try reflexivity.
    + exfalso. apply H1. now right.
    + exfalso. apply elem_of_cons in H1 as [?|?]; contradiction.
Qed.

Lemma tally_sum (c : pystr) (counts : list (pystr * nat)) :
  sum_list_with snd (tally c counts) = S (sum_list_with snd counts).
Proof.
  induction counts as [|[c0 n] counts IH]; [reflexivity|].
  cbn [tally]. destruct (pystr_eqb c c0).
  - reflexivity.
  - change (n + sum_list_with snd (tally c counts)
            = S (n + sum_list_with snd counts))%nat.
    rewrite IH. lia.
Qed.

Lemma tally_positive (c : pystr) (counts : list (pystr * nat)) :
  Forall (fun p => (0 < snd p)%nat) counts ->
  Forall (fun p => (0 < snd p)%nat) (tally c counts).
Proof.
  induction 1 as [|[c0 n] counts Hn Hall IH]; simpl.
  - repeat constructor.
  - destruct (pystr_eqb c c0); constructor; simpl in *; auto; lia.
Qed.

Lemma tally_NoDup (c : pystr) (counts : list (pystr * nat)) :
  NoDup (map fst counts) -> NoDup (map fst (tally c counts)).
Proof.
  intros H. rewrite tally_keys. case_bool_decide as Hc; [exact H|].
  apply NoDup_app. split; [exact H|]. split; [|apply NoDup_singleton].
  intros x Hx Hx'. apply list_elem_of_singleton in Hx' as ->. contradiction.
Qed.

Lemma count_of_absent (c : pystr) (counts : list (pystr * nat)) :
  c ∉ map fst counts -> count_of c counts = 0%nat.
Proof.
  induction counts as [|[c0 n] counts IH]; simpl; [reflexivity|].
  intros H. rewrite not_elem_of_cons in H. destruct H as [Hne H].
  rewrite decide_False by exact Hne. now rewrite IH.
Qed.

Lemma count_of_listed (c : pystr) (n : nat) (counts : list (pystr * nat)) :
  NoDup (map fst counts) -> (c, n) ∈ counts -> count_of c counts = n.
Proof.
  induction counts as [|[c0 n0] counts IH]; simpl; intros Hnd Hin.
  - inversion Hin.
  - apply NoDup_cons in Hnd as [Hc0 Hnd].
    apply elem_of_cons in Hin as [[= <- <-]|Hin].
    + rewrite decide_True by reflexivity.
      rewrite count_of_absent by exact Hc0. lia.
    + assert (c <> c0).
      { intros ->. apply Hc0. apply elem_of_map_iff. exists (c0, n). auto. }
      rewrite decide_False by assumption. now rewrite IH.
Qed.

Lemma count_of_perm (c : pystr) (k l : list (pystr * nat)) :
  k ≡ₚ l -> count_of c k = count_of c l.
Proof.
  induction 1 as [|[c0 n] k l _ IH|[c0 n] [c1 m] k|k l m _ IH1 _ IH2];
    simpl; lia.
Qed.

Lemma insert_desc_insort (x : pystr * nat) (l : list (pystr * nat)) :
  insert_desc x l = insort (fun a b => (snd b <=? snd a)%nat) x l.
Proof.
  induction l as [|y l IH]; simpl; [reflexivity|]. now rewrite IH.
Qed.

Lemma sort_desc_sorted (l : list (pystr * nat)) :
  fold_right insert_desc [] l = sorted (fun a b => (snd b <=? snd a)%nat) l.
Proof.
  induction l as [|x l IH]; simpl; [reflexivity|].
  now rewrite IH, insert_desc_insort.
Qed.

Lemma tallies_spec (filtered : list row) (counts : list (pystr * nat)) :
  NoDup (map fst counts) ->
  Forall (fun p => (0 < snd p)%nat) counts ->
  NoDup (map fst (tallies filtered counts)) /\
  Forall (fun p => (0 < snd p)%nat) (tallies filtered counts) /\
  sum_list_with snd (tallies filtered counts)
  = (sum_list_with snd counts + length filtered)%nat /\
  forall c, count_of c (tallies filtered counts)
            = (count_of c counts
               + length (filter (fun r => Country r = c) filtered))%nat.
Proof.
  revert counts. induction filtered as [|r l IH]; intros counts Hnd Hpos.
  - simpl. repeat split; auto; intros; simpl; lia.
  - change (tallies (r :: l) counts)
      with (tallies l (tally (Country r) counts)).
    destruct (IH (tally (Country r) counts)) as (H1 & H2 & H3 & H4).
    + now apply tally_NoDup.
    + now apply tally_positive.
    + repeat split; auto.
      * rewrite H3, tally_sum. simpl. lia.
      * intros c. rewrite H4, count_of_tally, filter_cons.
        destruct (decide (c = Country r)), (decide (Country r = c));
          simpl; try lia; congruence.
Qed.

Lemma StronglySorted_weaken {A} (R S : A -> A -> Prop) (l : list A) :
  (forall a b, R a b -> S a b) -> StronglySorted R l -> StronglySorted S l.
Proof.
  intros HRS. induction 1 as [|a l Hs IH Hall]; constructor; auto.
  eapply Forall_impl; eauto.
Qed.

(** X10: the counts of the bar chart. Every listed country has the number
    of filtered rows with that country, which is positive; no country is
    listed twice; the country of every filtered row is listed; counts do
    not increase along the list. *)
Theorem country_counts_spec (filtered : list row) :
  (forall c n, (c, n) ∈ country_counts filtered ->
     n = length (filter (fun r => Country r = c) filtered) /\ (0 < n)%nat) /\
  NoDup (map fst (country_counts filtered)) /\
  (forall r, r ∈ filtered ->
     exists n, (Country r, n) ∈ country_counts filtered) /\
  StronglySorted (fun a b => (snd b <= snd a)%nat) (country_counts filtered).
Proof.
  unfold country_counts. rewrite sort_desc_sorted.
  fold (tallies filtered []).
  destruct (tallies_spec filtered []) as (Hnd & Hpos & _ & Hcount);
    [constructor|constructor|].
  set (leb := fun a b : pystr * nat => (snd b <=? snd a)%nat).
  assert (Hperm : sorted leb (tallies filtered []) ≡ₚ tallies filtered [])
    by apply sorted_perm.
  split; [|split; [|split]].
  - intros c n Hin. rewrite Hperm in Hin. split.
    + rewrite <- (count_of_listed c n _ Hnd Hin), Hcount. simpl. lia.
    + rewrite Forall_forall in Hpos. apply (Hpos _ Hin).
  - rewrite (Permutation_map fst Hperm). exact Hnd.
  - intros r Hr.
    assert (Hc : (0 < count_of (Country r) (tallies filtered []))%nat).
    { rewrite Hcount.
      assert (Hin : r ∈ filter (fun r0 => Country r0 = Country r) filtered)
        by (apply list_elem_of_filter; auto).
      destruct (filter (fun r0 => Country r0 = Country r) filtered);
        [inversion Hin|simpl; lia]. }
    assert (He : exists n, (Country r, n) ∈ tallies filtered []).
    { clear -Hc. induction (tallies filtered []) as [|[c0 n0] k IHk];
        simpl in Hc; [lia|].
      destruct (decide (Country r = c0)) as [->|Hne].
      - exists n0. left.
      - destruct IHk as [m Hm]; [lia|]. exists m. now right. }
    destruct He as [n Hn]. exists n. now rewrite Hperm.
  - apply (StronglySorted_weaken (fun a b => leb a b = true)).
    { intros a b. unfold leb. now rewrite Nat.leb_le. }
    apply (sorted_sorted leb).
    + intros a b. unfold leb. rewrite !Nat.leb_le. lia.
    + intros a b c. unfold leb. rewrite !Nat.leb_le. lia.
Qed.

(** X11: [heat_df] lists its cells in increasing order of date and hour,
    every count is positive, and the cell of every filtered row is
    listed. *)
Theorem heat_df_spec (filtered : list row) :
  StronglySorted (fun a b => earlier (fst a) (fst b)) (heat_df filtered) /\
  Forall (fun p => (0 < snd p)%nat) (heat_df filtered) /\
  (forall r, r ∈ filtered ->
     exists n, (Date r, Hour r, n) ∈ heat_df filtered).
Proof.
  split; [|split].
  - apply (StronglySorted_weaken key_lt).
    + intros a b. unfold key_lt, earlier. apply key_compare_Lt.
    + apply groupby_size_sorted.
  - apply groupby_size_fold. constructor.
  - intros r Hr. now apply heat_df_complete.
Qed.

Lemma time_bins_sum (origin t0 : Z) (ts : list Z) :
  sum_list_with snd (time_bins (fst (range_edges origin t0 ts))
                               (snd (range_edges origin t0 ts)) (t0 :: ts))
  = length (t0 :: ts).
Proof.
  destruct (resample_grid origin t0 ts)
    as (start & n & Hedges & Hgrid & Hpos & Hfirst & Hlast).
  rewrite Hedges. cbn [fst snd].
  rewrite Hgrid, (sum_list_with_map snd). simpl snd.
  rewrite <- (sum_list_with_map
    (fun b => length (List.filter (in_bin b) (t0 :: ts))) (edge start)).
  rewrite sum_sizes. apply sum_list_with_ones.
  intros t Ht. rewrite hits_grid.
  destruct Hfirst as (a & _ & Ha & Ha').
  destruct Hlast as (b & _ & Hb & Hb').
  specialize (Ha t Ht). specialize (Hb t Ht).
  rewrite bool_decide_eq_true_2; [reflexivity|lia].
Qed.

Lemma resample_sum (origin : Z) (index : list Z) (s : list (Z * nat)) :
  resample_1H_size origin index = OK s ->
  sum_list_with snd s = length index.
Proof.
  destruct index as [|t0 ts]; [now intros [= <-]|].
  rewrite resample_1H_size_cons.
  destruct (in_bounds _ && in_bounds _); [|discriminate].
  intros [= <-]. apply time_bins_sum.
Qed.

(** X12: the counts of the bar chart and of the heat map each add up to the
    number of filtered rows, the total the summary line shows, and so do
    the counts of the hourly series whenever line 112 returns one; it
    returns one when the two edges of its grid are in bounds. This holds
    for the empty table too. *)
Theorem totals_agree (origin : Z) (filtered : list row) :
  sum_list_with snd (country_counts filtered) = length filtered /\
  sum_list_with snd (heat_df filtered) = length filtered /\
  (forall s, df_ts origin filtered = OK s ->
             sum_list_with snd s = length filtered) /\
  (in_bounds (fst (edges origin filtered)) = true ->
   in_bounds (snd (edges origin filtered)) = true ->
   exists s, df_ts origin filtered = OK s) /\
  df_ts origin [] = OK [].
Proof.
  split; [|split; [|split; [|split]]].
  - unfold country_counts. rewrite sort_desc_sorted, sorted_perm.
    fold (tallies filtered []).
    destruct (tallies_spec filtered []) as (_ & _ & Hsum & _);
      [constructor|constructor|].
    rewrite Hsum. reflexivity.
  - unfold heat_df, groupby_size.
    destruct (groupby_size_fold (map (fun r => (Date r, Hour r)) filtered) [])
      as [_ Hsum]; [constructor|].
    rewrite Hsum, length_map. reflexivity.
  - intros s Hs. unfold df_ts in Hs. apply resample_sum in Hs.
    now rewrite length_map in Hs.
  - unfold df_ts, edges.
    destruct (map (fun r => value (Time_Central r)) filtered) as [|t0 ts].
    + intros _ _. now exists [].
    + rewrite resample_1H_size_cons. intros -> ->. eauto.
  - reflexivity.
Qed.

(** ** Reading the response *)

Section ResponseLaws.

Variable T : Type.
Variable to_datetime : pyval -> outcome T.

Lemma read_loop_app (data1 data2 : list pyval) (records : list (jrecord T)) :
  read_loop T to_datetime (data1 ++ data2) records
  = (rs <-- read_loop T to_datetime data1 records ;;;
     read_loop T to_datetime data2 rs).
Proof.
  revert records. induction data1 as [|d data1 IH]; intros records;
    [reflexivity|].
  simpl. destruct (loop_body T to_datetime d) as [[rec|]|e]; simpl; auto.
Qed.

(** X13: the loop reads all or nothing. It returns records exactly when the
    body succeeds on every element, and then returns the records gathered
    before followed by those of the elements, in order, the skipped ones
    left out; it raises exactly the exception of the first element on which
    the body raises, and what was gathered is lost. *)
Theorem read_loop_all_or_nothing (data : list pyval)
    (records : list (jrecord T)) :
  (forall rs, read_loop T to_datetime data records = Done rs <->
     exists outs,
       Forall2 (fun d o => loop_body T to_datetime d = Done o) data outs /\
       rs = records ++ omap id outs) /\
  (forall e, read_loop T to_datetime data records = Fail e <->
     exists good d rest,
       data = good ++ d :: rest /\
       loop_body T to_datetime d = Fail e /\
       Forall (fun x => exists o, loop_body T to_datetime x = Done o) good).
Proof.
  revert records. induction data as [|d data IH]; intros records.
  - split.
    + intros rs. simpl. split.
      * intros [= <-]. exists []. split; [constructor|].
        simpl. now rewrite app_nil_r.
      * intros (outs & H & ->). inversion H. simpl. now rewrite app_nil_r.
    + intros e. simpl. split; [discriminate|].
      intros (good & d & rest & H & _). now destruct good.
  - split.
    + intros rs. simpl. destruct (loop_body T to_datetime d) as [o|e] eqn:Hb.
      * simpl. split.
        -- intros H.
           assert (Hrs : exists outs,
             Forall2 (fun d o => loop_body T to_datetime d = Done o) data outs /\
             rs = (records ++ omap id [o]) ++ omap id outs).
           { destruct o as [rec|]; simpl.
             - apply (IH (records ++ [rec])). exact H.
             - rewrite app_nil_r. apply (IH records). exact H. }
           destruct Hrs as (outs & HF & ->). exists (o :: outs).
           split; [now constructor|].
           destruct o; simpl; rewrite <- ?app_assoc; simpl;
             rewrite ?app_nil_r; reflexivity.
        -- intros (outs & HF & ->).
           inversion HF as [|? o' ? outs' Ho HF']; subst.
           rewrite Hb in Ho. injection Ho as <-.
           destruct o as [rec|]; simpl.
           ++ apply (IH (records ++ [rec])). exists outs'.
              split; [exact HF'|]. now rewrite <- app_assoc.
           ++ apply (IH records). exists outs'. auto.
      * simpl. split; [discriminate|].
        intros (outs & HF & _). inversion HF; subst. congruence.
    + intros e. simpl. destruct (loop_body T to_datetime d) as [o|e0] eqn:Hb.
      * simpl.
        assert (Hgo : forall recs,
          read_loop T to_datetime data recs = Fail e <->
          exists good d0 rest,
            d :: data = good ++ d0 :: rest /\
            loop_body T to_datetime d0 = Fail e /\
            Forall (fun x => exists o, loop_body T to_datetime x = Done o) good).
        { intros recs. rewrite (proj2 (IH recs) e). split.
          - intros (good & d0 & rest & -> & Hf & Hg).
            exists (d :: good), d0, rest. repeat split; auto.
            constructor; eauto.
          - intros (good & d0 & rest & H & Hf & Hg).
            destruct good as [|x good]; simpl in H; injection H as <- ->.
            + congruence.
            + inversion Hg; subst. exists good, d0, rest. auto. }
        destruct o; apply Hgo.
      * simpl. split.
        -- intros [= <-]. exists [], d, data. repeat split; auto.
        -- intros (good & d0 & rest & H & Hf & Hg).
           destruct good as [|x good]; simpl in H; injection H as <- ->.
           ++ congruence.
           ++ inversion Hg as [|? ? [o Ho] ?]; subst. congruence.
Qed.

(** X14: the test of line 28 reads the third coordinate only when the
    magnitude is not null. A feature with a null magnitude is skipped
    whatever its coordinates are; with a magnitude and fewer than three
    coordinates the loop ends in IndexError. *)
Theorem null_magnitude_short_circuit (d p g c m : pyval) (rest : list pyval)
    (records : list (jrecord T)) :
  getitem_str d "properties" = Done p ->
  getitem_str d "geometry" = Done g ->
  getitem_str g "coordinates" = Done c ->
  getitem_str p "mag" = Done m ->
  (m = PyNone ->
   read_loop T to_datetime (d :: rest) records
   = read_loop T to_datetime rest records) /\
  (m <> PyNone ->
   forall elements, c = PyList elements -> (length elements < 3)%nat ->
   read_loop T to_datetime (d :: rest) records = Fail IndexError).
Proof.
  intros Hp Hg Hc Hm. split.
  - intros ->. simpl. unfold loop_body. rewrite Hp. simpl. rewrite Hg. simpl.
    rewrite Hc. simpl. rewrite Hm. reflexivity.
  - intros Hne elements -> Hlen.
    assert (E : getitem_int (PyList elements) 2 = Fail IndexError).
    { unfold getitem_int.
      now rewrite (proj2 (nth_error_None elements 2)) by lia. }
    assert (En : is_None m = false) by (destruct m; [contradiction|reflexivity..]).
    cbn [read_loop]. unfold loop_body.
    rewrite Hp. cbn [bindO]. rewrite Hg. cbn [bindO]. rewrite Hc. cbn [bindO].
    rewrite Hm. cbn [bindO]. rewrite En, E. reflexivity.
Qed.

(** X15: on a response whose [features] is a list of well-formed features
    with times that fit 64 bits, reading the parsed JSON does what the typed
    loop does: it gives the same records, field by field, or raises the
    same exception, provided [pd.to_datetime] does on such an integer what
    [to_datetime_ms] says. *)
Theorem read_records_typed (stamp : Timestamp -> T) (response : pyval)
    (js : list pyval) (ds : list feature) :
  (forall ms, in_bounds ms = true ->
     to_datetime (PyInt ms) = lift stamp (to_datetime_ms ms)) ->
  getitem_str response "features" = Done (PyList js) ->
  Forall2 describes js ds ->
  Forall time_fits ds ->
  read_records T to_datetime response
  = lift (map (jrecord_of stamp)) (load_records ds []).
Proof.
  intros Hint Hf Hall Hfit. unfold read_records. rewrite Hf. simpl. clear Hf.
  change (@nil (jrecord T)) with (map (jrecord_of stamp) []).
  generalize (@nil record) as records.
  induction Hall as [|j d js ds Hd _ IH]; intros records; [reflexivity|].
  inversion Hfit as [|? ? Hd_fit Hfit']; subst. specialize (IH Hfit').
  destruct Hd as (p & g & c & Hp & Hg & Hc & Hpl & Hm & Ht & H0 & H1 & H2).
  cbn [read_loop load_records]. unfold loop_body.
  rewrite Hp. cbn [bindO]. rewrite Hg. cbn [bindO]. rewrite Hc.
  cbn [bindO]. rewrite Hm. cbn [bindO].
  unfold time_fits, usable in Hd_fit.
  destruct (is_None (mag d)) eqn:Em.
  - cbn [bindO orb]. apply IH.
  - rewrite H2. cbn [bindO].
    destruct (is_None (coordinates_2 d)) eqn:Ec.
    + cbn [bindO orb]. apply IH.
    + cbn [bindO orb]. rewrite Hpl. cbn [bindO]. rewrite Ht.
      cbn [bindO]. rewrite Hint by (apply Hd_fit; reflexivity).
      destruct (to_datetime_ms (time d)) as [t|e]; [|reflexivity].
      cbn [lift bindO bind]. rewrite H0. cbn [bindO].
      rewrite H1. cbn [bindO]. rewrite <- IH, map_app. reflexivity.
Qed.

(** X16: a response without the key [features] raises KeyError; a response
    that is not an object, or whose [features] is null, a number, a boolean,
    a non-empty string or a non-empty object, raises TypeError; an empty
    list, an empty object and an empty string all read as no record. *)
Theorem read_records_rejects (response : pyval) :
  (forall items, response = PyDict items ->
     lookup_key (py "features") items = None ->
     read_records T to_datetime response
     = Fail (Raised (KeyError "features"))) /\
  ((forall items, response <> PyDict items) ->
     read_records T to_datetime response = Fail (Raised TypeError)) /\
  (forall data, getitem_str response "features" = Done data ->
     match data with
     | PyList _ | PyDict [] | PyStr [] => True
     | _ => read_records T to_datetime response = Fail (Raised TypeError)
     end) /\
  (forall data, getitem_str response "features" = Done data ->
     data = PyList [] \/ data = PyDict [] \/ data = PyStr [] ->
     read_records T to_datetime response = Done []).
Proof.
  split; [|split; [|split]].
  - intros items -> Hk. unfold read_records. simpl. now rewrite Hk.
  - intros H. unfold read_records. destruct response; try reflexivity.
    now destruct (H items).
  - intros data Hd. unfold read_records. rewrite Hd. simpl.
    destruct data as [| | | |[|c s]|?|[|[k v] items]]; try exact I;
      reflexivity.
  - intros data Hd [->|[->| ->]]; unfold read_records; rewrite Hd; reflexivity.
Qed.

End ResponseLaws.


(** ** Fetches through the cache *)

Section CacheCounts.

Variable America_Chicago : tzinfo.
Variable astype : list pyval -> scalar -> scalar.

Lemma cached_load_data_fetches (a : access) (c : cache) :
  (fetches c <= fetches (snd (cached_load_data America_Chicago astype a c))
   <= S (fetches c))%nat.
Proof.
  unfold cached_load_data, fetch.
  destruct (slot c) as [e|]; [destruct (now a <? expires e)|];
    destruct (load_data America_Chicago astype (feed a)); simpl; lia.
Qed.

Lemma run_snoc (accesses : list access) (a : access) (c : cache) :
  run America_Chicago astype (accesses ++ [a]) c
  = snd (cached_load_data America_Chicago astype a
           (run America_Chicago astype accesses c)).
Proof. unfold run. now rewrite fold_left_app. Qed.

(** X17: over any sequence of accesses the number of requests sent never
    decreases and grows by at most one per access; and while no table is
    cached and the feed has no usable feature, every access sends a request
    and nothing is cached: the failure of [load_data] is never stored. *)
Theorem cache_fetch_count (accesses : list access) (c : cache) :
  (fetches c <= fetches (run America_Chicago astype accesses c)
   <= fetches c + length accesses)%nat /\
  (slot c = None ->
   Forall (fun a => List.filter usable (feed a) = []) accesses ->
   run America_Chicago astype accesses c
   = {| slot := None; fetches := fetches c + length accesses |}).
Proof.
  split.
  - revert c. induction accesses as [|a l IH]; intros c.
    + simpl. lia.
    + change (run America_Chicago astype (a :: l) c)
        with (run America_Chicago astype l
                (snd (cached_load_data America_Chicago astype a c))).
      pose proof (cached_load_data_fetches a c).
      specialize (IH (snd (cached_load_data America_Chicago astype a c))).
      simpl length. lia.
  - revert c. induction accesses as [|a l IH]; intros c Hs Hall.
    + destruct c as [s f]. simpl in *. subst s. f_equal. lia.
    + change (run America_Chicago astype (a :: l) c)
        with (run America_Chicago astype l
                (snd (cached_load_data America_Chicago astype a c))).
      inversion Hall as [|? ? Ha Hl]; subst.
      assert (E : cached_load_data America_Chicago astype a c
                  = (Raise (KeyError "Time_UTC"),
                     {| slot := None; fetches := S (fetches c) |})).
      { unfold cached_load_data, fetch. rewrite Hs.
        now rewrite load_data_unusable. }
      rewrite E. cbn [snd]. rewrite IH by auto.
      simpl. f_equal. lia.
Qed.

End CacheCounts.


(** ** The hourly series on the hour *)

Lemma adjust_dates_anchored_fst (first last origin : Z) :
  fst (adjust_dates_anchored first last origin)
  = first - (first - origin) mod NS_PER_HOUR.
Proof.
  unfold adjust_dates_anchored. simpl.
  pose proof (Z.mod_pos_bound (first - origin) NS_PER_HOUR eq_refl).
  destruct (Z.ltb_spec 0 ((first - origin) mod NS_PER_HOUR)); lia.
Qed.

Lemma resample_grid_anchor (origin t0 : Z) (ts : list Z) :
  exists (start : Z) (n : nat),
    range_edges origin t0 ts = (start, edge start n) /\
    time_bins start (edge start n) (t0 :: ts)
    = map (fun i => (edge start i,
                     length (List.filter (in_bin (edge start i)) (t0 :: ts))))
          (seq 0 n) /\
    (start - origin) mod NS_PER_HOUR = 0.
Proof.
  destruct (resample_grid origin t0 ts) as (start & n & Ha & Hgrid & _).
  exists start, n. split; [exact Ha|]. split; [exact Hgrid|].
  unfold range_edges in Ha.
  apply (f_equal fst) in Ha. rewrite adjust_dates_anchored_fst in Ha.
  simpl in Ha. subst start. unfold NS_PER_HOUR.
  Z.to_euclidean_division_equations. lia.
Qed.

Lemma length_filter_map {A B} (f : A -> B) (p : B -> bool) (P : A -> Prop)
    `{!forall x, Decision (P x)} (l : list A) :
  (forall x, p (f x) = true <-> P x) ->
  length (List.filter p (map f l)) = length (filter P l).
Proof.
  intros Hp. induction l as [|a l IH]; [reflexivity|].
  simpl. rewrite filter_cons.
  destruct (p (f a)) eqn:E, (decide (P a)) as [HP|HP]; simpl; auto.
  - apply Hp in E. contradiction.
  - apply Hp in HP. congruence.
Qed.

Lemma resample_on_the_hour (origin : Z) (index : list Z)
    (s : list (Z * nat)) (b : Z) (n : nat) :
  origin mod NS_PER_HOUR = 0 ->
  resample_1H_size origin index = OK s ->
  (b, n) ∈ s ->
  b mod NS_PER_HOUR = 0 /\
  n = length (List.filter (fun t => t / NS_PER_HOUR * NS_PER_HOUR =? b) index).
Proof.
  intros Ho Hs Hin. destruct index as [|t0 ts].
  { injection Hs as <-. inversion Hin. }
  rewrite resample_1H_size_cons in Hs.
  destruct (resample_grid_anchor origin t0 ts)
    as (start & k & Hedges & Hgrid & Hmod).
  rewrite Hedges in Hs. cbn [fst snd] in Hs. rewrite Hgrid in Hs.
  clear Hgrid Hedges. remember (t0 :: ts) as index.
  destruct (in_bounds _ && in_bounds _); [|discriminate].
  injection Hs as <-.
  apply list_elem_of_In, in_map_iff in Hin. destruct Hin as (i & Heq & _).
  injection Heq as <- <-.
  assert (Hb : edge start i mod NS_PER_HOUR = 0).
  { unfold edge, NS_PER_HOUR in *. Z.to_euclidean_division_equations. lia. }
  split; [exact Hb|]. f_equal. apply filter_ext. intros t.
  apply eq_true_iff_eq. rewrite in_bin_spec, Z.eqb_eq.
  unfold NS_PER_HOUR in *. Z.to_euclidean_division_equations. lia.
Qed.

(** X18: when the anchor of the grid is on a full hour (as is every local
    midnight of a zone whose offsets are whole hours), every bin of the
    series [df_ts] returns starts on a full hour and its count is the
    number of filtered rows whose timestamp, rounded down to the hour, is
    that start. *)
Theorem df_ts_clock_hours (origin : Z) (filtered : list row)
    (s : list (Z * nat)) (b : Z) (n : nat) :
  origin mod NS_PER_HOUR = 0 ->
  df_ts origin filtered = OK s ->
  (b, n) ∈ s ->
  b mod NS_PER_HOUR = 0 /\
  n = length (filter (fun r => value (Time_Central r) / NS_PER_HOUR
                               * NS_PER_HOUR = b) filtered).
Proof.
  intros Ho Hs Hin. unfold df_ts in Hs.
  destruct (resample_on_the_hour _ _ _ _ _ Ho Hs Hin) as [Hb ->].
  split; [exact Hb|].
  apply length_filter_map. intros r. apply Z.eqb_eq.
Qed.

(** ** The cells of the heat map *)

Lemma civil_from_days_valid (n : Z) :
  1 <= month (civil_from_days n) <= 12 /\
  1 <= day (civil_from_days n) <= 31.
Proof.
  unfold civil_from_days. cbn [month day].
  set (z := n + 719468).
  set (era := z / 146097).
  set (doe := z - era * 146097).
  assert (Hdoe : 0 <= doe < 146097).
  { subst doe era. Z.to_euclidean_division_equations. lia. }
  clearbody doe. clear z era.
  set (yoe := (doe - doe / 1460 + doe / 36524 - doe / 146096) / 365).
  set (doy := doe - (365 * yoe + yoe / 4 - yoe / 100)).
  assert (Hdoy : 0 <= doy <= 365).
  { subst doy yoe. Z.to_euclidean_division_equations. lia. }
  clearbody doy. clear yoe.
  set (mp := (5 * doy + 2) / 153).
  assert (Hmp : 0 <= mp <= 11)
    by (subst mp; Z.to_euclidean_division_equations; lia).
  split.
  - destruct (Z.ltb_spec mp 10); lia.
  - subst mp. Z.to_euclidean_division_equations. lia.
Qed.

Lemma days_from_civil_from_days (n : Z) :
  days_from_civil (civil_from_days n) = n.
Proof.
  unfold days_from_civil, civil_from_days. cbn [year month day].
  set (z := n + 719468).
  set (era := z / 146097).
  set (doe := z - era * 146097).
  assert (Hn : n = era * 146097 + doe - 719468) by (subst doe z; lia).
  assert (Hdoe : 0 <= doe < 146097).
  { subst doe era. Z.to_euclidean_division_equations. lia. }
  clearbody doe era. clear z.
  set (yoe := (doe - doe / 1460 + doe / 36524 - doe / 146096) / 365).
  set (doy := doe - (365 * yoe + yoe / 4 - yoe / 100)).
  assert (Hy : 0 <= yoe <= 399 /\ 0 <= doy <= 365).
  { subst doy yoe. Z.to_euclidean_division_equations. lia. }
  assert (Hdoe' : doe = yoe * 365 + yoe / 4 - yoe / 100 + doy)
    by (subst doy; lia).
  clearbody doy yoe.
  set (mp := (5 * doy + 2) / 153).
  assert (Hmp : 0 <= mp <= 11)
    by (subst mp; Z.to_euclidean_division_equations; lia).
  set (d := doy - (153 * mp + 2) / 5 + 1).
  set (m := if mp <? 10 then mp + 3 else mp - 9).
  assert (Hm : (m = mp + 3 /\ mp < 10) \/ (m = mp - 9 /\ 10 <= mp))
    by (subst m; destruct (Z.ltb_spec mp 10); lia).
  clearbody m.
  replace (if m <=? 2 then yoe + era * 400 + (if m <=? 2 then 1 else 0) - 1
           else yoe + era * 400 + (if m <=? 2 then 1 else 0))
    with (yoe + era * 400)
    by (destruct (Z.leb_spec m 2); lia).
  replace (if 2 <? m then m - 3 else m + 9) with mp
    by (destruct (Z.ltb_spec 2 m); lia).
  replace ((yoe + era * 400) / 400) with era
    by (Z.to_euclidean_division_equations; lia).
  replace (yoe + era * 400 - era * 400) with yoe by lia.
  subst d. lia.
Qed.

Lemma civil_from_days_inj (m n : Z) :
  civil_from_days m = civil_from_days n -> m = n.
Proof.
  intros H. rewrite <- (days_from_civil_from_days m), H.
  apply days_from_civil_from_days.
Qed.

Lemma dt_date_same_day (t1 t2 : Timestamp) :
  dt_date t1 = dt_date t2 <-> wall t1 / NS_PER_DAY = wall t2 / NS_PER_DAY.
Proof.
  unfold dt_date. split; [apply civil_from_days_inj|congruence].
Qed.

Lemma same_clock_hour (w1 w2 : Z) :
  w1 / NS_PER_HOUR = w2 / NS_PER_HOUR <->
  w1 / NS_PER_DAY = w2 / NS_PER_DAY /\
  (w1 / NS_PER_HOUR) mod 24 = (w2 / NS_PER_HOUR) mod 24.
Proof.
  unfold NS_PER_HOUR, NS_PER_DAY.
  Z.to_euclidean_division_equations. lia.
Qed.

Section Cells.

Variable America_Chicago : tzinfo.
Variable astype : list pyval -> scalar -> scalar.

Lemma row_fields (data : list feature) (df : list row) (r : row) :
  load_data America_Chicago astype data = OK df -> r ∈ df ->
  Hour r = dt_hour (Time_Central r) /\ Date r = dt_date (Time_Central r).
Proof.
  intros H Hr.
  destruct (load_data_elem _ _ _ _ _ H Hr) as (d & _ & _ & _ & He).
  unfold enrich in He.
  match type of He with
  | context [country_of ?p] => destruct (country_of p); [|discriminate]
  end.
  simpl in He. injection He as <-. auto.
Qed.


End Cells.

(** ** The properties above on the sample data *)

Lemma country_of_shape_witness :
  exists pre ws tail,
    py "A, B, C" = pre ++ COMMA :: ws ++ py "B, C" ++ tail /\
    forallb is_space ws = true /\
    (tail = [] \/ tail = [LF]) /\
    Forall (fun c => c <> LF) (py "B, C") /\
    match py "B, C" with c :: _ => is_space c = false | [] => True end.
Proof.
  apply (country_of_shape (py "A, B, C") (py "B, C")); reflexivity.
Defined.


(** The depth of [tokyo], the int 10, is in the table as the float 10.0,
    next to the depth 35.25 of [chile]. *)
Example tokyo_depth_stored :
  coordinates_2 tokyo = PyInt 10 /\
  Depth_km tokyo_row = PyFloat 10.0%float /\
  kept (coordinates_2 tokyo) (Depth_km tokyo_row).
Proof. repeat split. Qed.


Lemma null_magnitude_short_circuit_witness :
  (PyNone = PyNone ->
   read_loop (option Timestamp) sample_to_datetime [bare_json; tokyo_json] []
   = read_loop (option Timestamp) sample_to_datetime [tokyo_json] []) /\
  (PyNone <> PyNone ->
   forall elements, PyList [] = PyList elements -> (length elements < 3)%nat ->
   read_loop (option Timestamp) sample_to_datetime [bare_json; tokyo_json] []
   = Fail IndexError).
Proof.
  apply (null_magnitude_short_circuit (option Timestamp) sample_to_datetime
           bare_json bare_properties bare_geometry (PyList []) PyNone
           [tokyo_json] []); reflexivity.
Defined.

(** With a magnitude, the same empty coordinates end the loop. *)
Example short_coordinates_IndexError :
  read_loop (option Timestamp) sample_to_datetime
    [ tokyo_json;
      PyDict [ (py "properties", PyDict [(py "mag", PyFloat 4.5%float)]);
              (py "geometry", bare_geometry) ] ] []
  = Fail IndexError.
Proof. reflexivity. Qed.

Lemma read_records_typed_witness :
  read_records (option Timestamp) sample_to_datetime sample_response
  = lift (map (jrecord_of Some)) (load_records [tokyo; no_magnitude] []).
Proof.
  apply (read_records_typed (option Timestamp) sample_to_datetime Some
           sample_response [tokyo_json; no_magnitude_json]
           [tokyo; no_magnitude]).
  - intros ms _. unfold sample_to_datetime.
    now destruct (to_datetime_ms ms).
  - reflexivity.
  - repeat constructor; unfold describes; do 3 eexists; repeat split.
  - repeat constructor.
Defined.

(** The records read from the sample response. *)
Example read_records_sample :
  read_records (option Timestamp) sample_to_datetime sample_response
  = Done [ {| jPlace := PyStr (py "10km SE of Tokyo, Japan");
              jMagnitude := PyFloat 4.5%float;
              jTime_UTC := Some (timestamp_ms 1735700400000);
              jDepth_km := PyInt 10;
              jLongitude := PyFloat 139.75%float;
              jLatitude := PyFloat 35.5%float |} ].
Proof. reflexivity. Qed.

Lemma df_ts_clock_hours_witness :
  (1735704000 * 1000000000) mod NS_PER_HOUR = 0 /\
  0%nat = length (filter (fun r => value (Time_Central r) / NS_PER_HOUR
                                   * NS_PER_HOUR = 1735704000 * 1000000000)
                         [aftershock_row; tokyo_row]).
Proof.
  apply (df_ts_clock_hours sample_origin [aftershock_row; tokyo_row]
           [ (1735700400 * 1000000000, 1%nat);
             (1735704000 * 1000000000, 0%nat);
             (1735707600 * 1000000000, 1%nat) ]
           (1735704000 * 1000000000) 0).
  - reflexivity.
  - reflexivity.
  - right. left.
Defined.

